(** * morphic: mesh refinement and node-value aliasing

    A shallow embedding of [morphic/refinement.py] (basis table, canonical
    xi-grid, the three single-axis refinements and the full refinement, the
    point de-duplication loop and the reassembly of the refined mesh),
    together with the numpy operations it calls and the parts of the Mesh
    class it relies on.

    Numbers are IEEE-754 binary64 values ([spec_float] with precision 53 and
    maximal exponent 1024), which is what Python's [float] and numpy's
    [float64] are; Python integers are [Z]; Python exceptions are the
    constructors of [exn] carried by the [result] monad. *)

From Stdlib Require Import ZArith Lia Bool.
From Stdlib Require Import Floats.SpecFloat.
From stdpp Require Import base option list strings.

Local Open Scope string_scope.
Local Open Scope list_scope.
Local Open Scope Z_scope.

(** ** Exceptions and the error monad *)

(** The first three are the Python exceptions that refinement.py and numpy
    raise; the others are the error kinds that the specification names for
    the Mesh class. *)
Inductive exn : Type :=
  | ValueError          (* raised by get_num_elem_nodes and by numpy *)
  | KeyError            (* dict lookup of an absent key *)
  | IndexError          (* sequence index out of range *)
  | ShapeMismatch       (* value/region or element/basis size mismatch *)
  | UnsupportedBasis    (* basis descriptor not resolvable *)
  | DuplicateId         (* node or element id already in use *)
  | NotGenerated.       (* evaluation before generate() *)

Inductive result (A : Type) : Type :=
  | Ok (a : A)
  | Raise (e : exn).
Arguments Ok {A} a.
Arguments Raise {A} e.

#[global] Instance result_ret : MRet result := fun A a => Ok a.
#[global] Instance result_bind : MBind result := fun A B f m =>
  match m with Ok a => f a | Raise e => Raise e end.
#[global] Instance result_fmap : FMap result := fun A B f m =>
  match m with Ok a => Ok (f a) | Raise e => Raise e end.

(** [for x in xs: ...] where the body may raise: the first exception stops
    the loop. *)
Fixpoint mapR {A B} (f : A -> result B) (xs : list A) : result (list B) :=
  match xs with
  | [] => Ok []
  | x :: xs' => y ← f x; ys ← mapR f xs'; Ok (y :: ys)
  end.

Fixpoint foldR {A S} (f : S -> A -> result S) (s : S) (xs : list A) : result S :=
  match xs with
  | [] => Ok s
  | x :: xs' => s' ← f s x; foldR f s' xs'
  end.

(** [xs[i]] on a Python list or a numpy axis, for a non-negative [i]. *)
Definition getitem {A} (xs : list A) (i : nat) : result A :=
  match xs !! i with Some x => Ok x | None => Raise IndexError end.

(** ** binary64 arithmetic *)

Definition float : Type := spec_float.

Definition prec : Z := 53.
Definition emax : Z := 1024.

Definition fadd : float -> float -> float := SFadd prec emax.
Definition fsub : float -> float -> float := SFsub prec emax.
Definition fmul : float -> float -> float := SFmul prec emax.
Definition fdiv : float -> float -> float := SFdiv prec emax.

(** Python's [==] on floats: NaN differs from everything, itself included,
    and the two zeros are equal. *)
Definition feqb : float -> float -> bool := SFeqb.

(** [float(z)] for a Python int, rounded to nearest even. *)
Definition float_of_Z (z : Z) : float := binary_normalize prec emax z 0 false.

Definition f0 : float := S754_zero false.       (* 0. *)
Definition fneg0 : float := S754_zero true.     (* -0. *)
Definition f1 : float := float_of_Z 1.          (* 1. *)

Definition fneg : float -> float := SFopp.       (* -x *)
Definition fnan : float := S754_nan.             (* float('nan') *)

Definition is_nan (x : float) : bool :=
  match x with S754_nan => true | _ => false end.

(** A Python int as a float that is not rounded (its mantissa may exceed 53
    bits): an operand for the division below. *)
Definition unrounded (z : Z) : float :=
  match z with
  | 0 => S754_zero false
  | Zpos p => S754_finite false p 0
  | Zneg p => S754_finite true p 0
  end.

(** [a / b] on Python ints: the exact quotient rounded once, for [b]
    different from 0 (every division of the source is by [fac] inside
    [range(fac)], so [b > 0] there). *)
Definition int_truediv (a b : Z) : float := fdiv (unrounded a) (unrounded b).

(** [range(n)] *)
Definition range (n : Z) : list Z := Z.of_nat <$> seq 0 (Z.to_nat n).

(** ** numpy: linspace, meshgrid, reshape, array and transpose *)

Definition set_last {A} (xs : list A) (x : A) : list A :=
  <[pred (length xs) := x]> xs.

(** [np.linspace(start, stop, num)] with [endpoint=True]: the samples are
    [arange(num) * step + start] with [step = (stop - start) / (num - 1)],
    and the last one is overwritten with [stop]. *)
Definition linspace (start stop : float) (num : Z) : result (list float) :=
  if num <? 0 then Raise ValueError
  else
    let div := num - 1 in
    let delta := fsub stop start in
    let y := float_of_Z <$> range num in
    let y :=
      if 0 <? div then
        let step := fdiv delta (float_of_Z div) in
        if feqb step f0
        then (fun v => fmul (fdiv v (float_of_Z div)) delta) <$> y
        else (fun v => fmul v step) <$> y
      else (fun v => fmul v delta) <$> y in
    let y := (fun v => fadd v start) <$> y in
    Ok (if 1 <? num then set_last y stop else y).

(** [np.meshgrid(x, y, z)] with the default [indexing='xy']: three arrays of
    shape [(len y, len x, len z)] with [X[i][j][k] = x[j]],
    [Y[i][j][k] = y[i]] and [Z[i][j][k] = z[k]]. *)
Definition meshgrid3 {A} (x y z : list A)
  : list (list (list A)) * list (list (list A)) * list (list (list A)) :=
  ( (fun _ => (fun xv => (fun _ => xv) <$> z) <$> x) <$> y,
    (fun yv => (fun _ => (fun _ => yv) <$> z) <$> x) <$> y,
    (fun _ => (fun _ => z) <$> x) <$> y ).

(** [np.meshgrid(x, y)]: two arrays of shape [(len y, len x)]. *)
Definition meshgrid2 {A} (x y : list A) : list (list A) * list (list A) :=
  ( (fun _ => x) <$> y, (fun yv => (fun _ => yv) <$> x) <$> y ).

(** [M.reshape((M.size))] in C order. *)
Definition reshape_flat3 {A} (m : list (list (list A))) : list A := concat (concat m).
Definition reshape_flat2 {A} (m : list (list A)) : list A := concat m.

(** A two-dimensional array is the list of its rows. [np.array(rows)]
    refuses rows of different lengths. *)
Abbreviation array2 A := (list (list A)).

Definition homogeneous {A} (rows : list (list A)) : bool :=
  match rows with
  | [] => true
  | r :: rs => forallb (fun r' => Nat.eqb (length r') (length r)) rs
  end.

Definition np_array {A} (rows : list (list A)) : result (array2 A) :=
  if homogeneous rows then Ok rows else Raise ValueError.

(** [np.array([c0, c1, ...]).T] for columns of one length: row [r] holds the
    [r]-th entry of every column. *)
Fixpoint columns_T {A} (cols : list (list A)) : array2 A :=
  match cols with
  | [] => []
  | [c] => (fun x => [x]) <$> c
  | c :: cs => zip_with cons c (columns_T cs)
  end.

Definition np_array_T {A} (cols : list (list A)) : result (array2 A) :=
  if homogeneous cols then Ok (columns_T cols) else Raise ValueError.

(** [a[:, k]] *)
Definition column {A} (a : array2 A) (k : nat) : result (list A) :=
  mapR (fun row => getitem row k) a.

(** ** refinement.py: basis table and canonical xi-grid *)

Abbreviation basis_t := (list string).

Definition get_num_elem_nodes (basis : basis_t) : result (list Z) :=
  if decide (basis = ["L1"; "L1"; "L1"]) then Ok [2; 2; 2]
  else if decide (basis = ["L2"; "L2"; "L2"]) then Ok [3; 3; 3]
  else if decide (basis = ["L3"; "L3"; "L3"]) then Ok [4; 4; 4]
  else Raise ValueError.

Definition generate_xi_grid (num_points : list Z) (dim : Z) : result (array2 float) :=
  n0 ← getitem num_points 0;
  xi1 ← linspace f0 f1 n0;
  n1 ← getitem num_points 1;
  xi2 ← linspace f0 f1 n1;
  if dim =? 2 then
    let '(X, Y) := meshgrid2 xi1 xi2 in
    np_array_T [reshape_flat2 X; reshape_flat2 Y]
  else
    n2 ← getitem num_points 2;
    xi3 ← linspace f0 f1 n2;
    let '(X, Y, Z) := meshgrid3 xi1 xi2 xi3 in
    np_array_T [reshape_flat3 Z; reshape_flat3 X; reshape_flat3 Y].


(** ** The Mesh class (mesher.py): coefficient store, nodes, elements *)

(** A numpy array of any rank: its shape and its entries in C order. *)
Record ndarray : Type := {
  nd_shape : list nat;
  nd_data : list float;
}.

Definition size_of (shape : list nat) : nat := foldr Nat.mul 1%nat shape.

Definition array1 (xs : list float) : ndarray :=
  {| nd_shape := [length xs]; nd_data := xs |}.

(** Modelled from the spec: the Node, Element and Mesh classes of mesher.py,
    which is not among the sources. A node is a handle on a region of the
    store, an element lists node ids, a mesh owns the store, the nodes and
    the elements. *)
Record Node : Type := {
  node_id : Z;
  node_group : string;
  node_shape : list nat;
  node_offset : nat;      (* first index of the node's region in the store *)
}.

Record Element : Type := {
  element_id : Z;
  element_basis : basis_t;
  element_node_ids : list Z;
}.

Record Mesh : Type := {
  core_P : list float;    (* the coefficient store, [mesh._core.P] *)
  nodes : list Node;      (* in creation order *)
  elements : list Element;
  generated : bool;
}.

(** Modelled from the spec: the constructor [Mesh()] of mesher.py, which is
    not among the sources: an empty store, no nodes and no elements. *)
Definition Mesh_new : Mesh :=
  {| core_P := []; nodes := []; elements := []; generated := false |}.

(** Modelled from the spec: [Mesh.add_stdnode(id, values, group)] of
    mesher.py: reserves a region for [values] at the end of the store and
    registers the node; an id already in use is refused. *)
Definition add_stdnode (mesh : Mesh) (id : Z) (values : ndarray) (group : string)
  : result (Mesh * Node) :=
  if bool_decide (id ∈ node_id <$> nodes mesh) then Raise DuplicateId
  else
    let node := {| node_id := id; node_group := group;
                   node_shape := nd_shape values;
                   node_offset := length (core_P mesh) |} in
    Ok ({| core_P := core_P mesh ++ nd_data values;
           nodes := nodes mesh ++ [node];
           elements := elements mesh;
           generated := generated mesh |}, node).

(** Modelled from the spec: the number of local nodes along one axis, from
    the basis functions of mesher.py's interpolator. *)
Definition local_node_count (b : string) : result Z :=
  if decide (b = "L1") then Ok 2
  else if decide (b = "L2") then Ok 3
  else if decide (b = "L3") then Ok 4
  else Raise UnsupportedBasis.

Definition product (xs : list Z) : Z := foldr Z.mul 1 xs.

(** Modelled from the spec: [Mesh.add_element(id, basis, node_ids)] of
    mesher.py: the node-id list must have as many entries as the basis has
    local nodes. *)
Definition add_element (mesh : Mesh) (id : Z) (basis : basis_t) (node_ids : list Z)
  : result Mesh :=
  counts ← mapR local_node_count basis;
  if negb (Z.of_nat (length node_ids) =? product counts) then Raise ShapeMismatch
  else if bool_decide (id ∈ element_id <$> elements mesh) then Raise DuplicateId
  else
    Ok {| core_P := core_P mesh;
          nodes := nodes mesh;
          elements := elements mesh ++
            [{| element_id := id; element_basis := basis;
                element_node_ids := node_ids |}];
          generated := generated mesh |}.

(** Modelled from the spec: [Mesh.generate(finalize)] of mesher.py: marks the
    mesh as generated. *)
Definition generate (mesh : Mesh) (finalize : bool) : Mesh :=
  {| core_P := core_P mesh; nodes := nodes mesh;
     elements := elements mesh; generated := true |}.

(** Modelled from the spec: the getter [node.values] of mesher.py: the
    node's region of the store, in the node's shape. *)
Definition Node_values (mesh : Mesh) (node : Node) : ndarray :=
  {| nd_shape := node_shape node;
     nd_data := take (size_of (node_shape node)) (drop (node_offset node) (core_P mesh)) |}.

(** ** refinement.py: reassembly *)

(** [enumerate(xs)] *)
Definition enumerate {A} (xs : list A) : list (Z * A) :=
  zip (range (Z.of_nat (length xs))) xs.

Definition create_morphic_mesh (basis : basis_t) (xn : array2 float) (xe : array2 Z)
  : result Mesh :=
  let mesh := Mesh_new in
  mesh ← foldR (fun mesh '(node_id, value) =>
                  fst <$> add_stdnode mesh (node_id + 1) (array1 value) "_default")
               mesh (enumerate xn);
  mesh ← foldR (fun mesh '(element_id, element) =>
                  row ← getitem xe (Z.to_nat element_id);
                  add_element mesh (element_id + 1) basis ((fun i => i + 1) <$> row))
               mesh (enumerate xe);
  Ok (generate mesh true).

(** ** refinement.py: partitions of the parametric interval *)

(** [[(n / fac, (n + 1) / fac) for n in range(fac)]] *)
Definition elem_partitions (fac : Z) : list (float * float) :=
  (fun n => (int_truediv n fac, int_truediv (n + 1) fac)) <$> range fac.

(** [col * (b[1] - b[0]) + b[0]], element by element. *)
Definition remap (b : float * float) (col : list float) : list float :=
  (fun xi => fadd (fmul xi (fsub (snd b) (fst b))) (fst b)) <$> col.

Definition xi_partitions_xi1 (xi_grid : array2 float) (fac : Z)
  : result (list (array2 float)) :=
  mapR (fun b =>
          c0 ← column xi_grid 0;
          c1 ← column xi_grid 1;
          c2 ← column xi_grid 2;
          np_array_T [remap b c0; c1; c2])
       (elem_partitions fac).

Definition xi_partitions_xi2 (xi_grid : array2 float) (fac : Z)
  : result (list (array2 float)) :=
  mapR (fun b =>
          c0 ← column xi_grid 0;
          c1 ← column xi_grid 1;
          c2 ← column xi_grid 2;
          np_array_T [c0; remap b c1; c2])
       (elem_partitions fac).

Definition xi_partitions_xi3 (xi_grid : array2 float) (fac : Z)
  : result (list (array2 float)) :=
  mapR (fun b =>
          c0 ← column xi_grid 0;
          c1 ← column xi_grid 1;
          c2 ← column xi_grid 2;
          np_array_T [c0; c1; remap b c2])
       (elem_partitions fac).

(** The three nested loops of [full_refinement], in the order in which they
    append. *)
Definition partition_triples (p1 p2 p3 : list (float * float))
  : list ((float * float) * (float * float) * (float * float)) :=
  xi1_part ← p1; xi2_part ← p2; xi3_part ← p3; [(xi1_part, xi2_part, xi3_part)].

Definition xi_partitions_full (xi_grid : array2 float) (facs : list Z)
  : result (list (array2 float)) :=
  fac1 ← getitem facs 0;
  let elem_partitions_xi1 := elem_partitions fac1 in
  fac2 ← getitem facs 1;
  let elem_partitions_xi2 := elem_partitions fac2 in
  fac3 ← getitem facs 2;
  let elem_partitions_xi3 := elem_partitions fac3 in
  mapR (fun '(xi1_part, xi2_part, xi3_part) =>
          c0 ← column xi_grid 0;
          c1 ← column xi_grid 1;
          c2 ← column xi_grid 2;
          np_array_T [remap xi1_part c0; remap xi2_part c1; remap xi3_part c2])
       (partition_triples elem_partitions_xi1 elem_partitions_xi2 elem_partitions_xi3).

(** ** refinement.py: the de-duplication dictionary *)

Abbreviation point := (list float).

(** [tuple(p) == tuple(q)]: same length and [==] component by component. *)
Fixpoint key_eqb (p q : point) : bool :=
  match p, q with
  | [], [] => true
  | x :: p', y :: q' => feqb x y && key_eqb p' q'
  | _, _ => false
  end.

(** A Python dict keeps its items in insertion order. *)
Abbreviation dict := (list (list float * Z)).

Fixpoint dict_get (mapping : dict) (k : point) : option Z :=
  match mapping with
  | [] => None
  | (k', v) :: rest => if key_eqb k' k then Some v else dict_get rest k
  end.

(** [k in mapping] *)
Definition dict_contains (mapping : dict) (k : point) : bool :=
  match dict_get mapping k with Some _ => true | None => false end.

(** [mapping[k]] *)
Definition dict_getitem (mapping : dict) (k : point) : result Z :=
  match dict_get mapping k with Some v => Ok v | None => Raise KeyError end.

(** [mapping[k] = v]: an equal key keeps its place and takes the new value,
    a new key goes to the end. *)
Fixpoint dict_setitem (mapping : dict) (k : point) (v : Z) : dict :=
  match mapping with
  | [] => [(k, v)]
  | (k', v') :: rest =>
      if key_eqb k' k then (k', v) :: rest else (k', v') :: dict_setitem rest k v
  end.

(** [len(mapping)] *)
Definition dict_len (mapping : dict) : Z := Z.of_nat (length mapping).

(** [mapping.keys()] *)
Definition dict_keys (mapping : dict) : list point := fst <$> mapping.

(** ** refinement.py: the refinement loop and the four entry points *)

Section Refinement.

(** [elem.evaluate(xi)] of mesher.py is not among the sources: every
    definition and theorem below holds for whatever it computes. *)
Variable evaluate : Mesh -> Element -> array2 float -> result (array2 float).

(** The body of [for node in new_elem_nodes]. *)
Definition visit_node (st : dict * list Z) (node : point) : result (dict * list Z) :=
  let '(mapping, elem_node_ids) := st in
  let mapping :=
    if negb (dict_contains mapping node)
    then dict_setitem mapping node (dict_len mapping)
    else mapping in
  i ← dict_getitem mapping node;
  Ok (mapping, elem_node_ids ++ [i]).

(** The body of [for xi_part in xi_partitions]. *)
Definition visit_partition (mesh : Mesh) (elem : Element)
    (st : dict * list (list Z)) (xi_part : array2 float)
  : result (dict * list (list Z)) :=
  let '(mapping, refined_xe) := st in
  new_elem_nodes ← evaluate mesh elem xi_part;
  '(mapping, elem_node_ids) ← foldR visit_node (mapping, []) new_elem_nodes;
  Ok (mapping, refined_xe ++ [elem_node_ids]).

(** The loop over [mesh.elements], which the four refinement functions
    share word for word, and what follows it. *)
Definition refine_loop (mesh : Mesh) (basis : basis_t)
    (xi_partitions : list (array2 float))
  : result (Mesh * array2 float * array2 Z) :=
  '(mapping, refined_xe) ←
    foldR (fun st elem => foldR (visit_partition mesh elem) st xi_partitions)
          ([], []) (elements mesh);
  let refined_xn_list := dict_keys mapping in
  refined_xn ← np_array refined_xn_list;
  refined_xe ← np_array refined_xe;
  refined_mesh ← create_morphic_mesh basis refined_xn refined_xe;
  Ok (refined_mesh, refined_xn, refined_xe).

Definition mesh_refine_along_xi1 (mesh : Mesh) (basis : basis_t) (fac : Z)
  : result (Mesh * array2 float * array2 Z) :=
  num_elem_nodes ← get_num_elem_nodes basis;
  xi_grid ← generate_xi_grid num_elem_nodes 3;
  xi_partitions ← xi_partitions_xi1 xi_grid fac;
  refine_loop mesh basis xi_partitions.

Definition mesh_refine_along_xi2 (mesh : Mesh) (basis : basis_t) (fac : Z)
  : result (Mesh * array2 float * array2 Z) :=
  num_elem_nodes ← get_num_elem_nodes basis;
  xi_grid ← generate_xi_grid num_elem_nodes 3;
  xi_partitions ← xi_partitions_xi2 xi_grid fac;
  refine_loop mesh basis xi_partitions.

Definition mesh_refine_along_xi3 (mesh : Mesh) (basis : basis_t) (fac : Z)
  : result (Mesh * array2 float * array2 Z) :=
  num_elem_nodes ← get_num_elem_nodes basis;
  xi_grid ← generate_xi_grid num_elem_nodes 3;
  xi_partitions ← xi_partitions_xi3 xi_grid fac;
  refine_loop mesh basis xi_partitions.

Definition full_refinement (mesh : Mesh) (basis : basis_t) (facs : list Z)
  : result (Mesh * array2 float * array2 Z) :=
  num_elem_nodes ← get_num_elem_nodes basis;
  xi_grid ← generate_xi_grid num_elem_nodes 3;
  xi_partitions ← xi_partitions_full xi_grid facs;
  refine_loop mesh basis xi_partitions.

End Refinement.

(** ** Element evaluation (mesher.py) *)

(** Modelled from the spec: the parametric positions of the local nodes of
    one axis, [k / order] for [k] in [0..order], from mesher.py's basis
    functions, which are not among the sources. *)
Definition lagrange_positions (count : Z) : list float :=
  (fun k => int_truediv k (count - 1)) <$> range count.

(** Modelled from the spec: the one-dimensional Lagrange weights of an axis
    with [count] local nodes at [x]: weight [i] is the product over the other
    nodes [j] of [(x - p_j) / (p_i - p_j)]. *)
Definition lagrange_weights (count : Z) (x : float) : list float :=
  let ps := enumerate (lagrange_positions count) in
  (fun '(i, p_i) =>
     foldl (fun w '(j, p_j) =>
              if i =? j then w else fmul w (fdiv (fsub x p_j) (fsub p_i p_j)))
           f1 ps) <$> ps.

(** Modelled from the spec: the tensor-product weights, the local node of
    the first axis varying fastest, which is the order of the rows of
    [generate_xi_grid]. *)
Fixpoint tensor_weights (axes : list (list float)) : list float :=
  match axes with
  | [] => [f1]
  | w :: rest => r ← tensor_weights rest; a ← w; [fmul a r]
  end.

(** Modelled from the spec: the sum of the node values [vals] weighted by
    [ws], component by component: the products [w * v], added from the first
    to the last. *)
Definition weighted_sum (ws : list float) (vals : list (list float)) : list float :=
  match zip_with (fun w v => fmul w <$> v) ws vals with
  | [] => []
  | term :: terms => foldl (zip_with fadd) term terms
  end.

(** Modelled from the spec: the node of a given id, [mesh.nodes[id]]. *)
Definition find_node (mesh : Mesh) (id : Z) : result Node :=
  match find (fun n => bool_decide (node_id n = id)) (nodes mesh) with
  | Some n => Ok n
  | None => Raise KeyError
  end.

(** Modelled from the spec: [Element.evaluate(xi_points)] of mesher.py: for
    every row of parametric coordinates, the sum of the element's node
    values weighted by the tensor-product Lagrange weights. *)
Definition Element_evaluate (mesh : Mesh) (elem : Element) (xi : array2 float)
  : result (array2 float) :=
  if negb (generated mesh) then Raise NotGenerated
  else
    counts ← mapR local_node_count (element_basis elem);
    ns ← mapR (find_node mesh) (element_node_ids elem);
    let vals := (fun n => nd_data (Node_values mesh n)) <$> ns in
    mapR (fun row =>
            if negb (length row =? length counts)%nat then Raise UnsupportedBasis
            else Ok (weighted_sum (tensor_weights (zip_with lagrange_weights counts row)) vals))
         xi.

(** ** Node values: reading and writing through the store (mesher.py) *)


(** [xs[off : off + len(vs)] = vs] on the store. *)
Definition write_at (store : list float) (off : nat) (vs : list float) : list float :=
  take off store ++ vs ++ drop (off + length vs) store.

Definition set_core_P (mesh : Mesh) (store : list float) : Mesh :=
  {| core_P := store; nodes := nodes mesh;
     elements := elements mesh; generated := generated mesh |}.

(** Modelled from the spec: the setter [node.values = values] of mesher.py,
    the write of a node's whole region: a value whose total element count
    is not that of the node's shape is refused with ShapeMismatch, and the
    entries of any other value are written one by one from the node's
    offset on. The mesh after the call is returned together with the
    outcome, since Python keeps the state that an exception leaves behind. *)
Definition set_values (mesh : Mesh) (node : Node) (values : ndarray)
  : Mesh * result unit :=
  if decide (size_of (nd_shape values) = size_of (node_shape node))
  then (set_core_P mesh (write_at (core_P mesh) (node_offset node) (nd_data values)), Ok ())
  else (mesh, Raise ShapeMismatch).

(** One entry of a numpy index: [i] or [start:stop]. *)
Inductive selector : Type :=
  | At (i : Z)
  | Span (start stop : option Z).

Definition clamp (n : Z) (i : Z) : Z :=
  let i := if i <? 0 then i + n else i in
  Z.max 0 (Z.min n i).

(** The indices that a selector picks on an axis of length [n]. *)
Definition axis_indices (n : nat) (sel : selector) : result (list nat) :=
  match sel with
  | At i =>
      let i' := if i <? 0 then i + Z.of_nat n else i in
      if (0 <=? i') && (i' <? Z.of_nat n) then Ok [Z.to_nat i'] else Raise IndexError
  | Span start stop =>
      let lo := clamp (Z.of_nat n) (default 0 start) in
      let hi := clamp (Z.of_nat n) (default (Z.of_nat n) stop) in
      Ok (seq (Z.to_nat lo) (Z.to_nat (hi - lo)))
  end.

(** The positions, in C order within an array of the given shape, that an
    index selects; missing trailing entries select whole axes. *)
Fixpoint positions (shape : list nat) (index : list selector) : result (list nat) :=
  match shape with
  | [] => match index with [] => Ok [0%nat] | _ => Raise IndexError end
  | n :: shape' =>
      let sel := default (Span None None) (head index) in
      rows ← axis_indices n sel;
      inner ← positions shape' (tail index);
      Ok (i ← rows; p ← inner; [(i * size_of shape' + p)%nat])
  end.

(** The right-hand side of a slice assignment: a scalar, broadcast to every
    selected entry, or one value per selected entry. *)
Inductive rhs : Type :=
  | Scalar (x : float)
  | Values (xs : list float).

Definition rhs_values (count : nat) (r : rhs) : result (list float) :=
  match r with
  | Scalar x => Ok (replicate count x)
  | Values xs => if (length xs =? count)%nat then Ok xs else Raise ValueError
  end.

Definition write_positions (store : list float) (off : nat)
    (ps : list nat) (vs : list float) : list float :=
  foldl (fun st '(p, v) => <[(off + p)%nat := v]> st) store (zip ps vs).

(** Modelled from the spec: [node.values[index] = value] of mesher.py: the
    selected entries of the node's region of the store are overwritten, as
    test_set_slices requires. *)
Definition setitem_values (mesh : Mesh) (node : Node) (index : list selector) (value : rhs)
  : Mesh * result unit :=
  match positions (node_shape node) index with
  | Raise e => (mesh, Raise e)
  | Ok ps =>
      match rhs_values (length ps) value with
      | Raise e => (mesh, Raise e)
      | Ok vs => (set_core_P mesh (write_positions (core_P mesh) (node_offset node) ps vs), Ok ())
      end
  end.

(** Modelled from the spec: the read [node.values[index]] of mesher.py. *)
Definition getitem_values (mesh : Mesh) (node : Node) (index : list selector)
  : result (list float) :=
  ps ← positions (node_shape node) index;
  mapR (fun p => getitem (core_P mesh) (node_offset node + p)) ps.

(** ** Specification-side definitions

    What the refinement loop is compared with: the evaluations it performs,
    in order, and the first-seen numbering of the points they return. *)

(** A call of one of the four refinement functions, and the partitions of
    the canonical grid that it computes. *)
Inductive refinement_call : Type :=
  | Along_xi1 (fac : Z)
  | Along_xi2 (fac : Z)
  | Along_xi3 (fac : Z)
  | Full (facs : list Z).

Definition refine
    (evaluate : Mesh -> Element -> array2 float -> result (array2 float))
    (mesh : Mesh) (basis : basis_t) (call : refinement_call)
  : result (Mesh * array2 float * array2 Z) :=
  match call with
  | Along_xi1 fac => mesh_refine_along_xi1 evaluate mesh basis fac
  | Along_xi2 fac => mesh_refine_along_xi2 evaluate mesh basis fac
  | Along_xi3 fac => mesh_refine_along_xi3 evaluate mesh basis fac
  | Full facs => full_refinement evaluate mesh basis facs
  end.

Definition call_partitions (xi_grid : array2 float) (call : refinement_call)
  : result (list (array2 float)) :=
  match call with
  | Along_xi1 fac => xi_partitions_xi1 xi_grid fac
  | Along_xi2 fac => xi_partitions_xi2 xi_grid fac
  | Along_xi3 fac => xi_partitions_xi3 xi_grid fac
  | Full facs => xi_partitions_full xi_grid facs
  end.

(** The (source element, partition) pairs in the order of the two loops. *)
Definition sub_elements (mesh : Mesh) (xi_partitions : list (array2 float))
  : list (Element * array2 float) :=
  elem ← elements mesh; xi_part ← xi_partitions; [(elem, xi_part)].

(** The evaluated points of every sub-element. *)
Definition evaluations
    (evaluate : Mesh -> Element -> array2 float -> result (array2 float))
    (mesh : Mesh) (xi_partitions : list (array2 float)) : result (list (list point)) :=
  mapR (fun '(elem, xi_part) => evaluate mesh elem xi_part)
       (sub_elements mesh xi_partitions).

(** The position of the first key equal to [p]. *)
Fixpoint index_of (keys : list point) (p : point) : option nat :=
  match keys with
  | [] => None
  | k :: ks => if key_eqb k p then Some 0%nat else S <$> index_of ks p
  end.

(** The points of a list without those equal to an earlier one, in the order
    of their first occurrence. *)
Definition first_seen_step (keys : list point) (p : point) : list point :=
  match index_of keys p with Some _ => keys | None => keys ++ [p] end.

Definition first_seen (pts : list point) : list point :=
  foldl first_seen_step [] pts.

(** [i] is the index of point [p] in the node array [keys]. *)
Definition resolved (keys : list point) (p : point) (i : Z) : Prop :=
  exists n, index_of keys p = Some n /\ i = Z.of_nat n.

(** The values of a dictionary built by the loop are the positions of its
    items, counted from [s]. *)
Definition numbered (s : nat) (mapping : dict) : Prop :=
  forall i k v, mapping !! i = Some (k, v) -> v = Z.of_nat (s + i).

(** No two keys are equal under [==]. *)
Definition distinct_keys (keys : list point) : Prop :=
  forall (i j : nat) a b, (i < j)%nat ->
    keys !! i = Some a -> keys !! j = Some b -> key_eqb a b = false.

Definition nan_free (p : point) : bool := forallb (fun x => negb (is_nan x)) p.

(** Bitwise equality of two coordinate tuples: the same binary64 values,
    signs of zeros included. *)
Definition bitwise_equal (p q : point) : Prop := p = q.

(** Sample [k] of [np.linspace(0., 1., n)], that is [k / (n - 1)] as numpy
    computes it. *)
Definition xi_sample (n : Z) (k : nat) : float :=
  if Z.of_nat k =? n - 1 then f1
  else
    let delta := fsub f1 f0 in
    let step := fdiv delta (float_of_Z (n - 1)) in
    fadd (if feqb step f0
          then fmul (fdiv (float_of_Z (Z.of_nat k)) (float_of_Z (n - 1))) delta
          else fmul (float_of_Z (Z.of_nat k)) step)
         f0.



(** The grid with the coordinate of one axis sent into the partition
    [(lo, hi)] by [xi * (hi - lo) + lo] and the other coordinates kept. *)
Definition affine (b : float * float) (xi : float) : float :=
  fadd (fmul xi (fsub (snd b) (fst b))) (fst b).

Definition remap_rows (axis : nat) (b : float * float) (grid : array2 float)
  : array2 float :=
  (fun row => alter (affine b) axis row) <$> grid.

(** An array of three columns. *)
Definition rows3 {A} (a : array2 A) : Prop :=
  Forall (fun row => length row = 3%nat) a.

(** An evaluation that returns on the partition [part]: one point per
    parametric row, every point with [d] coordinates, none of them NaN. *)
Definition returns_check (d : nat) (part : array2 float) (r : result (array2 float)) : bool :=
  match r with
  | Ok pts =>
      (length pts =? length part)%nat &&
      forallb (fun p => (length p =? d)%nat && nan_free p) pts
  | Raise _ => false
  end.

Definition evaluate_returns
    (evaluate : Mesh -> Element -> array2 float -> result (array2 float))
    (mesh : Mesh) (d : nat) (xi_partitions : list (array2 float)) : Prop :=
  forall elem part, elem ∈ elements mesh -> part ∈ xi_partitions ->
    returns_check d part (evaluate mesh elem part) = true.

Definition evaluate_returnsb
    (evaluate : Mesh -> Element -> array2 float -> result (array2 float))
    (mesh : Mesh) (d : nat) (xi_partitions : list (array2 float)) : bool :=
  forallb (fun elem =>
             forallb (fun part => returns_check d part (evaluate mesh elem part))
                     xi_partitions)
          (elements mesh).

(** Two lists of points hold the same points, up to [==]. *)
Definition same_points (ps qs : list point) : Prop :=
  (forall p, p ∈ ps -> exists q, q ∈ qs /\ key_eqb p q = true) /\
  (forall q, q ∈ qs -> exists p, p ∈ ps /\ key_eqb p q = true).



(** The nodes that [create_morphic_mesh] adds for the rows [xn], the first
    with id [s + 1] and its region at offset [off] of the store. *)
Fixpoint nodes_from (s off : nat) (xn : array2 float) : list Node :=
  match xn with
  | [] => []
  | value :: rest =>
      {| node_id := Z.of_nat s + 1; node_group := "_default";
         node_shape := [length value]; node_offset := off |}
      :: nodes_from (S s) (off + length value) rest
  end.

(** The elements that it adds for the rows [xe], the first with id [s + 1]. *)
Fixpoint elements_from (basis : basis_t) (s : nat) (xe : array2 Z) : list Element :=
  match xe with
  | [] => []
  | row :: rest =>
      {| element_id := Z.of_nat s + 1; element_basis := basis;
         element_node_ids := (fun i => i + 1) <$> row |}
      :: elements_from basis (S s) rest
  end.

(** The mesh assembled from a node array and a connectivity array. *)
Definition assembled (basis : basis_t) (xn : array2 float) (xe : array2 Z) : Mesh :=
  {| core_P := concat xn;
     nodes := nodes_from 0 0 xn;
     elements := elements_from basis 0 xe;
     generated := true |}.









(** ** Example meshes *)

Definition fz : Z -> float := float_of_Z.

Definition L1 : basis_t := ["L1"; "L1"; "L1"].
Definition L2 : basis_t := ["L2"; "L2"; "L2"].
Definition L3 : basis_t := ["L3"; "L3"; "L3"].

(** The canonical xi-grid of the trilinear basis. *)
Definition grid_L1 : array2 float :=
  [ [f0; f0; f0]; [f1; f0; f0]; [f0; f1; f0]; [f1; f1; f0];
    [f0; f0; f1]; [f1; f0; f1]; [f0; f1; f1]; [f1; f1; f1] ].

Definition cube_xn : array2 float :=
  [ [fz 0; fz 0; fz 0]; [fz 1; fz 0; fz 0]; [fz 0; fz 1; fz 0]; [fz 1; fz 1; fz 0];
    [fz 0; fz 0; fz 1]; [fz 1; fz 0; fz 1]; [fz 0; fz 1; fz 1]; [fz 1; fz 1; fz 1] ].

Definition cube_xe : array2 Z := [ [0; 1; 2; 3; 4; 5; 6; 7] ].

(** The unit cube as one trilinear element, built the way
    examples/refine_beam.py builds its mesh. *)
Definition unit_cube : Mesh :=
  match create_morphic_mesh L1 cube_xn cube_xe with
  | Ok mesh => mesh
  | Raise _ => Mesh_new
  end.

(** The unit cube and its mirror image in the plane x = 0, each one
    trilinear element with its own 8 nodes: the mirrored nodes have the
    x-coordinates [-0.] and [-1.]. *)
Definition mirror (p : point) : point :=
  match p with
  | x :: rest => fneg x :: rest
  | [] => []
  end.

Definition cube_and_mirror : Mesh :=
  match create_morphic_mesh L1 (cube_xn ++ (mirror <$> cube_xn))
          [ [0; 1; 2; 3; 4; 5; 6; 7]; [8; 9; 10; 11; 12; 13; 14; 15] ] with
  | Ok mesh => mesh
  | Raise _ => Mesh_new
  end.

(** The unit cube with a NaN as the x-coordinate of its first node. *)
Definition cube_with_nan : Mesh :=
  match create_morphic_mesh L1 ([fnan; fz 0; fz 0] :: drop 1 cube_xn) cube_xe with
  | Ok mesh => mesh
  | Raise _ => Mesh_new
  end.

(** The unit cube as one tricubic element, its 64 nodes at the points of the
    canonical grid. *)
Definition unit_cube_L3 : Mesh :=
  match generate_xi_grid [4; 4; 4] 3 with
  | Ok grid =>
      match create_morphic_mesh L3 grid [Z.of_nat <$> seq 0 64] with
      | Ok mesh => mesh
      | Raise _ => Mesh_new
      end
  | Raise _ => Mesh_new
  end.

(** The mesh of test_nodevalues.py's test_set_slices: two nodes of shape
    (2, 3). *)
Definition Xn1 : ndarray :=
  {| nd_shape := [2; 3]%nat;
     nd_data := [fz 0; int_truediv 1 10; int_truediv 2 10;
                 int_truediv 3 10; int_truediv 4 10; int_truediv 5 10] |}.

Definition Xn2 : ndarray :=
  {| nd_shape := [2; 3]%nat;
     nd_data := [fz 11; fz 12; fz 13; fz 15; fz 16; fz 66] |}.


Definition two_nodes : Mesh * Node * Node :=
  match add_stdnode Mesh_new 1 Xn1 "_default" with
  | Ok (mesh, node1) =>
      match add_stdnode mesh 2 Xn2 "_default" with
      | Ok (mesh, node2) => (mesh, node1, node2)
      | Raise _ => (mesh, node1, node1)
      end
  | Raise _ =>
      (Mesh_new, {| node_id := 0; node_group := ""; node_shape := []; node_offset := 0 |},
       {| node_id := 0; node_group := ""; node_shape := []; node_offset := 0 |})
  end.

(** * Properties *)

(** ** The error monad *)

Lemma bind_Ok {A B} (m : result A) (f : A -> result B) (b : B) :
  (m ≫= f) = Ok b <-> exists a, m = Ok a /\ f a = Ok b.
Proof.
  destruct m as [a|e]; simpl; split.
  - intros H. exists a. split; [reflexivity | exact H].
  - intros (a' & Ha & Hf). injection Ha as ->. exact Hf.
  - discriminate.
  - intros (a' & Ha & _). discriminate.
Qed.


Lemma mapR_Ok_length {A B} (f : A -> result B) xs ys :
  mapR f xs = Ok ys -> length ys = length xs.
Proof.
  revert ys. induction xs as [|x xs IH]; simpl; intros ys H.
  - injection H as <-. reflexivity.
  - apply bind_Ok in H. destruct H as (y & Hy & H).
    apply bind_Ok in H. destruct H as (ys' & Hys & H).
    injection H as <-. simpl. f_equal. apply IH, Hys.
Qed.


Lemma mapR_total {A B} (f : A -> result B) (g : A -> B) xs :
  (forall x, x ∈ xs -> f x = Ok (g x)) -> mapR f xs = Ok (g <$> xs).
Proof.
  induction xs as [|x xs IH]; simpl; intros H; [reflexivity|].
  rewrite (H x) by apply list_elem_of_here. simpl.
  rewrite IH; [reflexivity|]. intros y Hy. apply H. by apply list_elem_of_further.
Qed.


Lemma foldR_app {A S} (f : S -> A -> result S) s xs ys :
  foldR f s (xs ++ ys) = (foldR f s xs ≫= fun s' => foldR f s' ys).
Proof.
  revert s. induction xs as [|x xs IH]; simpl; intros s; [reflexivity|].
  destruct (f s x) as [s'|e]; simpl; [apply IH | reflexivity].
Qed.


(** A loop nested in a loop is one loop over the pairs. *)
Lemma foldR_nested {A B S} (f : A -> S -> B -> result S) s xs ys :
  foldR (fun st x => foldR (f x) st ys) s xs =
  foldR (fun st '(x, y) => f x st y) s (x ← xs; y ← ys; [(x, y)]).
Proof.
  revert s. induction xs as [|x xs IH]; simpl; intros s; [reflexivity|].
  rewrite foldR_app.
  assert (Hin : forall s, foldR (f x) s ys =
            foldR (fun st '(x, y) => f x st y) s (y ← ys; [(x, y)])).
  { clear. induction ys as [|y ys IH]; simpl; intros s; [reflexivity|].
    destruct (f x s y); simpl; [apply IH | reflexivity]. }
  rewrite Hin. destruct (foldR _ s (y ← ys; [(x, y)])) as [s'|e]; simpl;
    [apply IH | reflexivity].
Qed.

Lemma getitem_Ok {A} (xs : list A) i x : getitem xs i = Ok x <-> xs !! i = Some x.
Proof. unfold getitem. destruct (xs !! i); split; congruence. Qed.

(** ** Python's [==] on floats and on coordinate tuples *)

Lemma feqb_true x y :
  feqb x y = true ->
  is_nan x = false /\ (x = y \/ exists s s', x = S754_zero s /\ y = S754_zero s').
Proof.
  unfold feqb, SFeqb, SFcompare.
  destruct x as [sx|sx| |sx mx ex], y as [sy|sy| |sy my ey]; simpl; intros H;
    try discriminate H; (split; [reflexivity|]).
  - right. eauto.
  - destruct sy; discriminate H.
  - destruct sy; discriminate H.
  - destruct sx; discriminate H.
  - destruct sx, sy; try discriminate H; left; reflexivity.
  - destruct sx; discriminate H.
  - destruct sx; discriminate H.
  - destruct sy; discriminate H.
  - destruct sx, sy; try discriminate H;
      destruct (Z.compare_spec ex ey) as [->| |]; try discriminate H;
      destruct (Pos.compare_cont Eq mx my) eqn:Hc; try discriminate H;
      apply Pos.compare_eq in Hc; subst; left; reflexivity.
Qed.

Lemma feqb_refl x : is_nan x = false -> feqb x x = true.
Proof.
  unfold feqb, SFeqb, SFcompare.
  destruct x as [sx|sx| |sx mx ex]; simpl; intros H; try discriminate H; try reflexivity.
  - destruct sx; reflexivity.
  - destruct sx; rewrite Z.compare_refl, Pos.compare_cont_refl; reflexivity.
Qed.

Lemma feqb_spec x y :
  feqb x y = true <->
  is_nan x = false /\
  (x = y \/ exists s s', x = S754_zero s /\ y = S754_zero s').
Proof.
  split; [apply feqb_true|].
  intros [Hn [<-|(s & s' & -> & ->)]]; [by apply feqb_refl | reflexivity].
Qed.

Lemma feqb_sym x y : feqb x y = feqb y x.
Proof.
  destruct (feqb x y) eqn:Hxy, (feqb y x) eqn:Hyx; try reflexivity.
  - apply feqb_true in Hxy. destruct Hxy as [Hn [<-|(s & s' & -> & ->)]].
    + rewrite feqb_refl in Hyx by done. discriminate.
    + discriminate.
  - apply feqb_true in Hyx. destruct Hyx as [Hn [<-|(s & s' & -> & ->)]].
    + rewrite feqb_refl in Hxy by done. discriminate.
    + discriminate.
Qed.

Lemma feqb_trans x y z : feqb x y = true -> feqb y z = true -> feqb x z = true.
Proof.
  intros Hxy Hyz. apply feqb_true in Hxy, Hyz.
  destruct Hxy as [Hx [<-|(s & s' & -> & ->)]], Hyz as [Hy [<-|(t & t' & Ht & ->)]];
    try (by apply feqb_refl); try subst x; reflexivity.
Qed.

Lemma key_eqb_sym p q : key_eqb p q = key_eqb q p.
Proof.
  revert q. induction p as [|x p IH]; intros [|y q]; simpl; try reflexivity.
  by rewrite feqb_sym, IH.
Qed.

Lemma key_eqb_trans p q r : key_eqb p q = true -> key_eqb q r = true -> key_eqb p r = true.
Proof.
  revert q r. induction p as [|x p IH]; intros [|y q] [|z r]; simpl; try done.
  rewrite !andb_true_iff. intros [H1 H2] [H3 H4]. split.
  - eapply feqb_trans; eauto.
  - eapply IH; eauto.
Qed.

Lemma key_eqb_refl p : key_eqb p p = nan_free p.
Proof.
  induction p as [|x p IH]; simpl; [reflexivity|].
  rewrite IH. f_equal. destruct (is_nan x) eqn:Hn; simpl.
  - destruct x; try discriminate. reflexivity.
  - by apply feqb_refl.
Qed.

Lemma key_eqb_nan_free p q : key_eqb p q = true -> nan_free p = true /\ nan_free q = true.
Proof.
  intros H. split; rewrite <- key_eqb_refl.
  - eapply key_eqb_trans; [exact H|]. by rewrite key_eqb_sym.
  - eapply key_eqb_trans; [|exact H]. by rewrite key_eqb_sym.
Qed.

(** What [==] on tuples amounts to: equal lengths and, coordinate by
    coordinate, no NaN and the same value or two zeros of any signs. *)
Lemma key_eqb_spec p q :
  key_eqb p q = true <->
  Forall2 (fun x y => is_nan x = false /\
             (x = y \/ exists s s', x = S754_zero s /\ y = S754_zero s')) p q.
Proof.
  revert q. induction p as [|x p IH]; intros [|y q]; simpl.
  - split; [constructor | reflexivity].
  - split; [discriminate | inversion 1].
  - split; [discriminate | inversion 1].
  - rewrite andb_true_iff, feqb_spec, IH. split.
    + intros [H1 H2]. by constructor.
    + inversion 1; subst. by split.
Qed.

(** ** The basis table *)

Lemma get_num_elem_nodes_Ok basis nn :
  get_num_elem_nodes basis = Ok nn ->
  (basis = L1 /\ nn = [2; 2; 2]) \/ (basis = L2 /\ nn = [3; 3; 3]) \/
  (basis = L3 /\ nn = [4; 4; 4]).
Proof.
  unfold get_num_elem_nodes. repeat case_decide; intros [= <-]; auto.
Qed.

Lemma refinement_checks_basis_first evaluate (mesh : Mesh) (basis : basis_t)
    (fac : Z) (facs : list Z) :
  get_num_elem_nodes basis = Raise ValueError ->
  mesh_refine_along_xi1 evaluate mesh basis fac = Raise ValueError /\
  mesh_refine_along_xi2 evaluate mesh basis fac = Raise ValueError /\
  mesh_refine_along_xi3 evaluate mesh basis fac = Raise ValueError /\
  full_refinement evaluate mesh basis facs = Raise ValueError.
Proof.
  intros H. unfold mesh_refine_along_xi1, mesh_refine_along_xi2,
    mesh_refine_along_xi3, full_refinement. rewrite H. auto.
Qed.

(** C9: get_num_elem_nodes returns [2,2,2], [3,3,3] and [4,4,4] for the
    three uniform Lagrange bases and raises for every other basis list, the
    mixed list ['L1','L2','L3'] included; the four refinement functions then
    raise the same error whatever the mesh and whatever element evaluation
    would do, so nothing is evaluated before the rejection. *)
Theorem get_num_elem_nodes_uniform_only (basis : basis_t) :
  basis <> ["L1"; "L1"; "L1"] ->
  basis <> ["L2"; "L2"; "L2"] ->
  basis <> ["L3"; "L3"; "L3"] ->
  get_num_elem_nodes ["L1"; "L1"; "L1"] = Ok [2; 2; 2] /\
  get_num_elem_nodes ["L2"; "L2"; "L2"] = Ok [3; 3; 3] /\
  get_num_elem_nodes ["L3"; "L3"; "L3"] = Ok [4; 4; 4] /\
  get_num_elem_nodes ["L1"; "L2"; "L3"] = Raise ValueError /\
  get_num_elem_nodes basis = Raise ValueError /\
  forall evaluate (mesh : Mesh) (fac : Z) (facs : list Z),
    mesh_refine_along_xi1 evaluate mesh basis fac = Raise ValueError /\
    mesh_refine_along_xi2 evaluate mesh basis fac = Raise ValueError /\
    mesh_refine_along_xi3 evaluate mesh basis fac = Raise ValueError /\
    full_refinement evaluate mesh basis facs = Raise ValueError.
Proof.
  intros H1 H2 H3.
  assert (Hb : get_num_elem_nodes basis = Raise ValueError).
  { unfold get_num_elem_nodes. repeat case_decide; congruence. }
  repeat split; try reflexivity; try exact Hb;
    intros; by apply refinement_checks_basis_first.
Qed.

Lemma get_num_elem_nodes_uniform_only_witness :
  get_num_elem_nodes ["L2"; "L1"; "L1"] = Raise ValueError /\
  forall evaluate (mesh : Mesh) (facs : list Z),
    full_refinement evaluate mesh ["L2"; "L1"; "L1"] facs = Raise ValueError.
Proof.
  destruct (get_num_elem_nodes_uniform_only ["L2"; "L1"; "L1"])
    as (_ & _ & _ & _ & Hb & Hr); [discriminate | discriminate | discriminate |].
  split; [exact Hb | intros; apply Hr; exact 0].
Defined.

(** ** numpy helpers: lengths and lookups *)

Lemma length_range n : length (range n) = Z.to_nat n.
Proof. unfold range. by rewrite length_fmap, length_seq. Qed.

Lemma lookup_range n (i : nat) :
  (i < Z.to_nat n)%nat -> range n !! i = Some (Z.of_nat i).
Proof.
  intros H. unfold range. rewrite list_lookup_fmap.
  rewrite (lookup_seq_lt 0 (Z.to_nat n) i H). reflexivity.
Qed.

Lemma linspace_Ok n :
  0 <= n ->
  exists L, linspace f0 f1 n = Ok L /\ length L = Z.to_nat n /\
    forall k, (k < Z.to_nat n)%nat -> 2 <= n -> L !! k = Some (xi_sample n k).
Proof.
  intros Hn. unfold linspace.
  destruct (n <? 0) eqn:Hneg; [lia|].
  eexists. split; [reflexivity|]. split.
  - destruct (1 <? n); unfold set_last; rewrite ?length_insert;
      repeat match goal with |- context [if ?b then _ else _] => destruct b end;
      by rewrite !length_fmap, length_range.
  - intros k Hk H2.
    destruct (1 <? n) eqn:H1; [|lia].
    destruct (0 <? n - 1) eqn:Hd; [|lia].
    unfold xi_sample, set_last.
    set (step := fdiv (fsub f1 f0) (float_of_Z (n - 1))).
    destruct (feqb step f0) eqn:Hs.
    + rewrite !length_fmap, length_range.
      destruct (Z.of_nat k =? n - 1) eqn:Hk1.
      * replace k with (pred (Z.to_nat n)) by lia.
        apply list_lookup_insert_eq. rewrite !length_fmap, length_range. lia.
      * rewrite list_lookup_insert_ne by lia.
        by rewrite !list_lookup_fmap, lookup_range.
    + rewrite !length_fmap, length_range.
      destruct (Z.of_nat k =? n - 1) eqn:Hk1.
      * replace k with (pred (Z.to_nat n)) by lia.
        apply list_lookup_insert_eq. rewrite !length_fmap, length_range. lia.
      * rewrite list_lookup_insert_ne by lia.
        by rewrite !list_lookup_fmap, lookup_range.
Qed.


Lemma length_concat_uniform {A} (ls : list (list A)) (m : nat) :
  Forall (fun l => length l = m) ls -> length (concat ls) = (length ls * m)%nat.
Proof.
  induction 1 as [|l ls Hl _ IH]; simpl; [reflexivity|].
  rewrite length_app, IH, Hl. lia.
Qed.

Lemma Forall_fmap_const {A B} (P : B -> Prop) (f : A -> B) (xs : list A) :
  (forall x, P (f x)) -> Forall P (f <$> xs).
Proof. intros H. apply Forall_fmap, Forall_forall. intros x _. apply H. Qed.

Section Meshgrid.
Context {A : Type} (x y z : list A).

Lemma meshgrid3_length :
  length (reshape_flat3 (meshgrid3 x y z).1.1) = (length y * length x * length z)%nat /\
  length (reshape_flat3 (meshgrid3 x y z).1.2) = (length y * length x * length z)%nat /\
  length (reshape_flat3 (meshgrid3 x y z).2) = (length y * length x * length z)%nat.
Proof.
  unfold reshape_flat3, meshgrid3; simpl.
  repeat split.
  - rewrite (length_concat_uniform _ (length z)).
    + rewrite (length_concat_uniform _ (length x)); [by rewrite length_fmap|].
      apply Forall_fmap_const. intros ?. by rewrite length_fmap.
    + apply Forall_concat, Forall_fmap_const. intros ?.
      apply Forall_fmap_const. intros ?. by rewrite length_fmap.
  - rewrite (length_concat_uniform _ (length z)).
    + rewrite (length_concat_uniform _ (length x)); [by rewrite length_fmap|].
      apply Forall_fmap_const. intros ?. by rewrite length_fmap.
    + apply Forall_concat, Forall_fmap_const. intros ?.
      apply Forall_fmap_const. intros ?. by rewrite length_fmap.
  - rewrite (length_concat_uniform _ (length z)).
    + rewrite (length_concat_uniform _ (length x)); [by rewrite length_fmap|].
      apply Forall_fmap_const. intros ?. by rewrite length_fmap.
    + apply Forall_concat, Forall_fmap_const. intros ?.
      by apply Forall_fmap_const.
Qed.

End Meshgrid.



Lemma np_array_T3 {A} (a b c : list A) :
  length b = length a -> length c = length a ->
  np_array_T [a; b; c] = Ok (columns_T [a; b; c]).
Proof.
  intros Hb Hc. unfold np_array_T, homogeneous. simpl.
  rewrite Hb, Hc, Nat.eqb_refl. reflexivity.
Qed.

(** ** The canonical xi-grid *)




(** The grid on [n, n, n] as three flattened meshgrid arrays. *)
Lemma xi_grid_columns (n : Z) :
  2 <= n ->
  exists L : list float,
    linspace f0 f1 n = Ok L /\ length L = Z.to_nat n /\
    (forall k, (k < Z.to_nat n)%nat -> L !! k = Some (xi_sample n k)) /\
    generate_xi_grid [n; n; n] 3 =
      Ok (columns_T [reshape_flat3 (meshgrid3 L L L).2;
                     reshape_flat3 (meshgrid3 L L L).1.1;
                     reshape_flat3 (meshgrid3 L L L).1.2]).
Proof.
  intros Hn. destruct (linspace_Ok n ltac:(lia)) as (L & HL & HlenL & HLk).
  exists L. split; [exact HL|]. split; [exact HlenL|].
  split; [intros k Hk; apply HLk; [exact Hk | exact Hn]|].
  unfold generate_xi_grid, getitem.
  cbn -[meshgrid3 reshape_flat3 np_array_T linspace columns_T f0 f1].
  rewrite HL. cbn -[meshgrid3 reshape_flat3 np_array_T linspace columns_T f0 f1].
  destruct (meshgrid3_length L L L) as (H1 & H2 & H3).
  destruct (meshgrid3 L L L) as [[X Y] Zm].
  cbn [fst snd] in *. apply np_array_T3; congruence.
Qed.

(** ** Columns of the grid and of the remapped grids *)

Lemma column_rows3 {A} (a : array2 A) :
  rows3 a ->
  exists c0 c1 c2,
    column a 0 = Ok c0 /\ column a 1 = Ok c1 /\ column a 2 = Ok c2 /\
    length c0 = length a /\ length c1 = length a /\ length c2 = length a /\
    a = columns_T [c0; c1; c2].
Proof.
  induction 1 as [|row a Hrow _ IH].
  - exists [], [], []. repeat split; reflexivity.
  - destruct IH as (c0 & c1 & c2 & H0 & H1 & H2 & L0 & L1 & L2 & E).
    destruct row as [|x [|y [|z [|? ?]]]]; try discriminate Hrow.
    exists (x :: c0), (y :: c1), (z :: c2).
    unfold column in *. simpl. rewrite H0, H1, H2. simpl.
    repeat split; try reflexivity; try (f_equal; assumption).
Qed.

Lemma column_columns_T3 {A} (a b c : list A) :
  length b = length a -> length c = length a ->
  column (columns_T [a; b; c]) 0 = Ok a /\
  column (columns_T [a; b; c]) 1 = Ok b /\
  column (columns_T [a; b; c]) 2 = Ok c /\
  rows3 (columns_T [a; b; c]) /\
  length (columns_T [a; b; c]) = length a.
Proof.
  revert b c. induction a as [|x a IH]; intros [|y b] [|z c] Hb Hc;
    try discriminate; simpl in *.
  - repeat split; constructor.
  - destruct (IH b c) as (H0 & H1 & H2 & H3 & H4); [lia | lia |].
    unfold column in *. simpl in H0, H1, H2, H3, H4 |- *.
    unfold fmap in H0, H1, H2, H3, H4.
    rewrite H0, H1, H2. simpl. repeat split; try reflexivity.
    + constructor; [reflexivity | exact H3].
    + f_equal. exact H4.
Qed.

(** The canonical grid of a supported basis has three columns. *)
Lemma generate_xi_grid_rows3 basis nn :
  get_num_elem_nodes basis = Ok nn ->
  exists grid, generate_xi_grid nn 3 = Ok grid /\ rows3 grid /\
    Z.of_nat (length grid) = product nn.
Proof.
  intros H. apply get_num_elem_nodes_Ok in H.
  assert (Hn : forall n, 2 <= n ->
    exists grid, generate_xi_grid [n; n; n] 3 = Ok grid /\ rows3 grid /\
      length grid = (Z.to_nat n * Z.to_nat n * Z.to_nat n)%nat).
  { intros n Hn. destruct (xi_grid_columns n Hn) as (L & _ & HlenL & _ & Hgrid).
    eexists. split; [exact Hgrid|].
    destruct (meshgrid3_length L L L) as (H1 & H2 & H3).
    destruct (column_columns_T3 (reshape_flat3 (meshgrid3 L L L).2)
                (reshape_flat3 (meshgrid3 L L L).1.1)
                (reshape_flat3 (meshgrid3 L L L).1.2)) as (_ & _ & _ & Hr & Hl);
      [congruence | congruence |].
    split; [exact Hr|]. rewrite Hl, H3, HlenL. reflexivity. }
  destruct H as [[-> ->]|[[-> ->]|[-> ->]]].
  - destruct (Hn 2 ltac:(lia)) as (g & Hg & Hr & Hl). exists g.
    split; [exact Hg|]. split; [exact Hr | by rewrite Hl].
  - destruct (Hn 3 ltac:(lia)) as (g & Hg & Hr & Hl). exists g.
    split; [exact Hg|]. split; [exact Hr | by rewrite Hl].
  - destruct (Hn 4 ltac:(lia)) as (g & Hg & Hr & Hl). exists g.
    split; [exact Hg|]. split; [exact Hr | by rewrite Hl].
Qed.

(** ** The partitions *)

Lemma length_elem_partitions fac : length (elem_partitions fac) = Z.to_nat fac.
Proof. unfold elem_partitions. by rewrite length_fmap, length_range. Qed.

Lemma lookup_elem_partitions fac (n : nat) :
  (n < Z.to_nat fac)%nat ->
  elem_partitions fac !! n =
    Some (int_truediv (Z.of_nat n) fac, int_truediv (Z.of_nat n + 1) fac).
Proof.
  intros H. unfold elem_partitions. by rewrite list_lookup_fmap, lookup_range.
Qed.

Lemma length_remap b col : length (remap b col) = length col.
Proof. unfold remap. by rewrite length_fmap. Qed.

Section SingleAxis.
Variables (grid : array2 float) (c0 c1 c2 : list float).
Hypothesis Hc0 : column grid 0 = Ok c0.
Hypothesis Hc1 : column grid 1 = Ok c1.
Hypothesis Hc2 : column grid 2 = Ok c2.
Hypothesis Hl1 : length c1 = length c0.
Hypothesis Hl2 : length c2 = length c0.

Lemma xi_partitions_xi1_Ok fac :
  xi_partitions_xi1 grid fac =
    Ok ((fun b => columns_T [remap b c0; c1; c2]) <$> elem_partitions fac).
Proof.
  unfold xi_partitions_xi1. apply mapR_total. intros b _.
  rewrite Hc0, Hc1, Hc2. simpl. apply np_array_T3; by rewrite length_remap.
Qed.

Lemma xi_partitions_xi2_Ok fac :
  xi_partitions_xi2 grid fac =
    Ok ((fun b => columns_T [c0; remap b c1; c2]) <$> elem_partitions fac).
Proof.
  unfold xi_partitions_xi2. apply mapR_total. intros b _.
  rewrite Hc0, Hc1, Hc2. simpl. apply np_array_T3; by rewrite ?length_remap.
Qed.

Lemma xi_partitions_xi3_Ok fac :
  xi_partitions_xi3 grid fac =
    Ok ((fun b => columns_T [c0; c1; remap b c2]) <$> elem_partitions fac).
Proof.
  unfold xi_partitions_xi3. apply mapR_total. intros b _.
  rewrite Hc0, Hc1, Hc2. simpl. apply np_array_T3; by rewrite ?length_remap.
Qed.

Lemma xi_partitions_full_Ok fa fb fc rest :
  xi_partitions_full grid (fa :: fb :: fc :: rest) =
    Ok ((fun '(b1, b2, b3) => columns_T [remap b1 c0; remap b2 c1; remap b3 c2]) <$>
        partition_triples (elem_partitions fa) (elem_partitions fb) (elem_partitions fc)).
Proof.
  unfold xi_partitions_full. simpl. apply mapR_total. intros [[b1 b2] b3] _.
  rewrite Hc0, Hc1, Hc2. simpl. apply np_array_T3; by rewrite !length_remap.
Qed.
End SingleAxis.

(** Entry [r] of [l ≫= f] when every [f x] has [m] entries. *)
Lemma lookup_bind_uniform {A B} (f : A -> list B) (l : list A) (m r : nat) :
  (forall x, length (f x) = m) -> (0 < m)%nat ->
  (l ≫= f) !! r = l !! (r / m)%nat ≫= fun x => f x !! (r mod m)%nat.
Proof.
  intros Hf Hm. revert r. induction l as [|x l IH]; intros r; simpl.
  - reflexivity.
  - destruct (decide (r < m)%nat) as [Hlt|Hge].
    + rewrite lookup_app_l by (rewrite Hf; lia).
      rewrite Nat.div_small, Nat.mod_small by lia. reflexivity.
    + rewrite lookup_app_r by (rewrite Hf; lia). rewrite IH, Hf.
      assert (Hd : (r / m = S ((r - m) / m))%nat).
      { replace (r / m)%nat with (((r - m) + 1 * m) / m)%nat by (f_equal; lia).
        rewrite Nat.div_add by lia. lia. }
      assert (Hmd : (r mod m = (r - m) mod m)%nat).
      { replace (r mod m)%nat with (((r - m) + 1 * m) mod m)%nat by (f_equal; lia).
        by rewrite Nat.Div0.mod_add. }
      rewrite Hd, Hmd. reflexivity.
Qed.

Lemma length_bind_uniform {A B} (f : A -> list B) (l : list A) (m : nat) :
  (forall x, length (f x) = m) -> length (l ≫= f) = (length l * m)%nat.
Proof.
  intros Hf. induction l as [|x l IH]; [reflexivity|].
  change ((x :: l) ≫= f) with (f x ++ (l ≫= f)).
  rewrite length_app, IH, Hf. simpl. lia.
Qed.

Lemma index_div_mod (q k m : nat) :
  (k < m)%nat -> ((q * m + k) / m = q /\ (q * m + k) mod m = k)%nat.
Proof.
  intros Hk. split.
  - rewrite Nat.div_add_l by lia. rewrite Nat.div_small by lia. lia.
  - rewrite Nat.add_comm, Nat.Div0.mod_add. apply Nat.mod_small. lia.
Qed.

Lemma length_partition_triples p1 p2 p3 :
  length (partition_triples p1 p2 p3) = (length p1 * length p2 * length p3)%nat.
Proof.
  unfold partition_triples.
  rewrite (length_bind_uniform _ _ (length p2 * length p3)); [lia|].
  intros a. rewrite (length_bind_uniform _ _ (length p3)); [lia|].
  intros b. rewrite (length_bind_uniform _ _ 1); [lia|]. reflexivity.
Qed.

(** The loops run with the first axis outermost and the third innermost. *)
Lemma lookup_partition_triples p1 p2 p3 (i j k : nat) b1 b2 b3 :
  p1 !! i = Some b1 -> p2 !! j = Some b2 -> p3 !! k = Some b3 ->
  partition_triples p1 p2 p3 !! ((i * length p2 + j) * length p3 + k)%nat =
    Some (b1, b2, b3).
Proof.
  intros H1 H2 H3.
  pose proof (lookup_lt_Some _ _ _ H1) as L1.
  pose proof (lookup_lt_Some _ _ _ H2) as L2.
  pose proof (lookup_lt_Some _ _ _ H3) as L3.
  unfold partition_triples.
  assert (Hinner : forall a b : float * float,
    length (p3 ≫= fun c => [(a, b, c)]) = length p3).
  { intros a b. rewrite (length_bind_uniform _ _ 1); [lia | reflexivity]. }
  assert (Hmid : forall a : float * float,
    length (p2 ≫= fun b => p3 ≫= fun c => [(a, b, c)]) = (length p2 * length p3)%nat).
  { intros a. by rewrite (length_bind_uniform _ _ (length p3)). }
  replace ((i * length p2 + j) * length p3 + k)%nat
    with (i * (length p2 * length p3) + (j * length p3 + k))%nat by lia.
  rewrite (lookup_bind_uniform _ _ (length p2 * length p3)); [|exact Hmid|nia].
  destruct (index_div_mod i (j * length p3 + k) (length p2 * length p3)) as [-> ->]; [nia|].
  rewrite H1. simpl.
  rewrite (lookup_bind_uniform _ _ (length p3)); [|apply Hinner|lia].
  destruct (index_div_mod j k (length p3)) as [-> ->]; [lia|].
  rewrite H2. simpl.
  rewrite (lookup_bind_uniform _ _ 1); [|reflexivity|lia].
  rewrite Nat.div_1_r, Nat.mod_1_r, H3. reflexivity.
Qed.

(** ** First-seen numbering *)

Lemma index_of_Some keys p n :
  index_of keys p = Some n <->
  exists k, keys !! n = Some k /\ key_eqb k p = true /\
    forall m k', (m < n)%nat -> keys !! m = Some k' -> key_eqb k' p = false.
Proof.
  revert n. induction keys as [|k ks IH]; intros n; simpl.
  - split; [discriminate | intros (k & Hk & _); discriminate].
  - destruct (key_eqb k p) eqn:Hkp.
    + split.
      * intros [= <-]. exists k. split; [reflexivity|]. split; [exact Hkp|]. lia.
      * intros (k' & Hk' & Heq & Hfirst). destruct n as [|n]; [reflexivity|].
        rewrite (Hfirst 0%nat k) in Hkp by (lia || reflexivity). discriminate.
    + destruct (index_of ks p) as [n'|]; simpl.
      * split.
        -- intros [= <-]. destruct (proj1 (IH n') eq_refl) as (k' & Hk' & Heq & Hfirst).
           exists k'. split; [exact Hk'|]. split; [exact Heq|].
           intros [|m] k'' Hm Hk''; simpl in Hk''.
           ++ by injection Hk'' as <-.
           ++ apply (Hfirst m); [lia | exact Hk''].
        -- intros (k' & Hk' & Heq & Hfirst). destruct n as [|n]; simpl in Hk'.
           ++ injection Hk' as <-. congruence.
           ++ f_equal. assert (E : Some n' = Some n); [|congruence].
              apply (proj2 (IH n)). exists k'. split; [exact Hk'|].
              split; [exact Heq|]. intros m k'' Hm Hk''. apply (Hfirst (S m)); [lia|exact Hk''].
      * split; [discriminate|].
        intros (k' & Hk' & Heq & Hfirst). destruct n as [|n]; simpl in Hk'.
        -- injection Hk' as <-. congruence.
        -- assert (Hn : None = Some n); [|discriminate].
           apply IH. exists k'. split; [exact Hk'|]. split; [exact Heq|].
           intros m k'' Hm Hk''. apply (Hfirst (S m)); [lia|exact Hk''].
Qed.


Lemma index_of_app_Some keys more p n :
  index_of keys p = Some n -> index_of (keys ++ more) p = Some n.
Proof.
  revert n. induction keys as [|k ks IH]; intros n; simpl; [discriminate|].
  destruct (key_eqb k p); [done|].
  destruct (index_of ks p) as [n'|]; simpl; [|discriminate].
  intros [= <-]. by rewrite (IH n').
Qed.

Lemma index_of_app_None keys more p :
  index_of keys p = None ->
  index_of (keys ++ more) p = (fun n => (length keys + n)%nat) <$> index_of more p.
Proof.
  induction keys as [|k ks IH]; simpl.
  - intros _. by destruct (index_of more p).
  - destruct (key_eqb k p); [discriminate|].
    destruct (index_of ks p) as [n'|]; simpl; [discriminate|].
    intros _. rewrite IH by reflexivity. by destruct (index_of more p).
Qed.

Lemma index_of_congr keys p q :
  key_eqb p q = true -> index_of keys p = index_of keys q.
Proof.
  intros Hpq. induction keys as [|k ks IH]; simpl; [reflexivity|].
  assert (Hk : key_eqb k p = key_eqb k q).
  { destruct (key_eqb k p) eqn:H1, (key_eqb k q) eqn:H2; try reflexivity.
    - rewrite (key_eqb_trans k p q) in H2 by assumption. discriminate.
    - rewrite (key_eqb_trans k q p) in H1; [discriminate | assumption |].
      by rewrite key_eqb_sym. }
  rewrite Hk, IH. reflexivity.
Qed.

Lemma resolved_mono keys more p i :
  resolved keys p i -> resolved (keys ++ more) p i.
Proof.
  intros (n & Hn & ->). exists n. split; [|reflexivity]. by apply index_of_app_Some.
Qed.

(** Two points get the same index exactly when they are equal under [==]. *)
Lemma resolved_same_iff keys p q i j :
  resolved keys p i -> resolved keys q j -> (i = j <-> key_eqb p q = true).
Proof.
  intros (n & Hn & ->) (n' & Hn' & ->). split.
  - intros E. apply Nat2Z.inj in E. subst n'.
    apply index_of_Some in Hn, Hn'.
    destruct Hn as (k & Hk & Hkp & _), Hn' as (k' & Hk' & Hkq & _).
    assert (k' = k) by congruence. subst k'.
    eapply key_eqb_trans; [|exact Hkq]. by rewrite key_eqb_sym.
  - intros Hpq. rewrite (index_of_congr keys p q Hpq) in Hn. congruence.
Qed.

Lemma first_seen_step_prefix keys p : keys `prefix_of` first_seen_step keys p.
Proof.
  unfold first_seen_step. destruct (index_of keys p).
  - reflexivity.
  - by apply prefix_app_r.
Qed.

Lemma first_seen_steps_prefix keys pts : keys `prefix_of` foldl first_seen_step keys pts.
Proof.
  revert keys. induction pts as [|p pts IH]; intros keys; simpl; [reflexivity|].
  etrans; [apply first_seen_step_prefix | apply IH].
Qed.

Lemma first_seen_step_distinct keys p :
  distinct_keys keys -> distinct_keys (first_seen_step keys p).
Proof.
  intros Hd. unfold first_seen_step. destruct (index_of keys p) as [n|] eqn:Hi; [exact Hd|].
  intros i j a b Hij Ha Hb.
  destruct (decide (j < length keys)%nat) as [Hj|Hj].
  - rewrite lookup_app_l in Ha, Hb by lia. exact (Hd i j a b Hij Ha Hb).
  - rewrite lookup_app_r in Hb by lia.
    destruct (j - length keys)%nat as [|?] eqn:Hjl; simpl in Hb; [|discriminate].
    injection Hb as <-. rewrite lookup_app_l in Ha by lia.
    destruct (key_eqb a p) eqn:Hap; [|reflexivity].
    assert (Hex : exists n, index_of keys p = Some n); [|destruct Hex; congruence].
    clear -Ha Hap. revert i Ha. induction keys as [|k ks IH]; intros i Ha; [discriminate|].
    simpl. destruct (key_eqb k p) eqn:Hkp; [eauto|].
    destruct i as [|i]; simpl in Ha; [congruence|].
    destruct (IH i Ha) as [n ->]. simpl. eauto.
Qed.

Lemma first_seen_steps_distinct keys pts :
  distinct_keys keys -> distinct_keys (foldl first_seen_step keys pts).
Proof.
  revert keys. induction pts as [|p pts IH]; intros keys Hd; simpl; [exact Hd|].
  by apply IH, first_seen_step_distinct.
Qed.

Lemma first_seen_distinct pts : distinct_keys (first_seen pts).
Proof.
  apply first_seen_steps_distinct. intros i j a b _ Ha. discriminate Ha.
Qed.

(** ** The dictionary of the loop *)

Lemma dict_get_numbered s mapping p :
  numbered s mapping ->
  dict_get mapping p = (fun n => Z.of_nat (s + n)) <$> index_of (dict_keys mapping) p.
Proof.
  revert s. induction mapping as [|[k v] rest IH]; intros s Hnum; simpl; [reflexivity|].
  destruct (key_eqb k p).
  - simpl. f_equal. apply (Hnum 0%nat k v). reflexivity.
  - rewrite (IH (S s)).
    + destruct (index_of (dict_keys rest) p); simpl; [|reflexivity].
      f_equal. f_equal. lia.
    + intros i k' v' Hi. rewrite (Hnum (S i) k' v' Hi). f_equal. lia.
Qed.

Lemma dict_setitem_fresh mapping p v :
  dict_get mapping p = None -> dict_setitem mapping p v = mapping ++ [(p, v)].
Proof.
  induction mapping as [|[k v'] rest IH]; simpl; [reflexivity|].
  destruct (key_eqb k p); [discriminate|]. intros H. by rewrite IH.
Qed.

Lemma numbered_snoc mapping p :
  numbered 0 mapping -> numbered 0 (mapping ++ [(p, dict_len mapping)]).
Proof.
  intros Hnum i k v Hi.
  destruct (decide (i < length mapping)%nat) as [Hlt|Hge].
  - rewrite lookup_app_l in Hi by lia. exact (Hnum i k v Hi).
  - rewrite lookup_app_r in Hi by lia.
    destruct (i - length mapping)%nat as [|?] eqn:E; simpl in Hi; [|discriminate].
    injection Hi as <- <-. unfold dict_len. f_equal. lia.
Qed.

Lemma dict_keys_snoc mapping p v :
  dict_keys (mapping ++ [(p, v)]) = dict_keys mapping ++ [p].
Proof. unfold dict_keys. by rewrite fmap_app. Qed.

Lemma length_dict_keys mapping : length (dict_keys mapping) = length mapping.
Proof. unfold dict_keys. by rewrite length_fmap. Qed.

(** One pass of the body of [for node in new_elem_nodes]. *)
Lemma visit_node_spec mapping ids p :
  numbered 0 mapping ->
  visit_node (mapping, ids) p =
    match index_of (dict_keys mapping) p with
    | Some n => Ok (mapping, ids ++ [Z.of_nat n])
    | None =>
        if nan_free p
        then Ok (mapping ++ [(p, dict_len mapping)], ids ++ [dict_len mapping])
        else Raise KeyError
    end.
Proof.
  intros Hnum. unfold visit_node, dict_contains, dict_getitem.
  rewrite (dict_get_numbered 0 mapping p Hnum).
  destruct (index_of (dict_keys mapping) p) as [n|] eqn:Hi; simpl.
  - rewrite (dict_get_numbered 0 mapping p Hnum), Hi. reflexivity.
  - rewrite dict_setitem_fresh
      by (rewrite (dict_get_numbered 0 mapping p Hnum), Hi; reflexivity).
    rewrite (dict_get_numbered 0 _ p (numbered_snoc mapping p Hnum)).
    rewrite dict_keys_snoc, (index_of_app_None _ _ _ Hi). simpl.
    rewrite key_eqb_refl. destruct (nan_free p); simpl; [|reflexivity].
    unfold dict_len. rewrite length_dict_keys, Nat.add_0_r. reflexivity.
Qed.

Lemma visit_nodes_spec pts : forall mapping ids mapping' ids',
  numbered 0 mapping ->
  foldR visit_node (mapping, ids) pts = Ok (mapping', ids') ->
  numbered 0 mapping' /\
  dict_keys mapping' = foldl first_seen_step (dict_keys mapping) pts /\
  Forall (fun p => nan_free p = true) pts /\
  exists new, ids' = ids ++ new /\ Forall2 (resolved (dict_keys mapping')) pts new.
Proof.
  induction pts as [|p pts IH]; intros mapping ids mapping' ids' Hnum H; cbn [foldR] in H.
  - injection H as <- <-. repeat split; try done. exists []. by rewrite app_nil_r.
  - apply bind_Ok in H. destruct H as ([m1 ids1] & Hstep & H).
    rewrite (visit_node_spec _ _ _ Hnum) in Hstep.
    cbn [foldl].
    destruct (index_of (dict_keys mapping) p) as [n|] eqn:Hi.
    + injection Hstep as <- <-.
      assert (Hfs : first_seen_step (dict_keys mapping) p = dict_keys mapping)
        by (unfold first_seen_step; by rewrite Hi).
      rewrite Hfs.
      destruct (IH _ _ _ _ Hnum H) as (Hnum' & Hkeys & Hnf & new & -> & Hres).
      split; [exact Hnum'|]. split; [exact Hkeys|].
      split.
      * constructor; [|exact Hnf]. apply index_of_Some in Hi.
        destruct Hi as (k & _ & Hkp & _). by apply key_eqb_nan_free in Hkp as [_ ?].
      * exists (Z.of_nat n :: new). split; [by rewrite <- app_assoc|].
        constructor; [|exact Hres].
        destruct (first_seen_steps_prefix (dict_keys mapping) pts) as [more Hmore].
        rewrite Hkeys, Hmore. apply resolved_mono. by exists n.
    + destruct (nan_free p) eqn:Hp; [|discriminate].
      injection Hstep as <- <-.
      assert (Hfs : first_seen_step (dict_keys mapping) p = dict_keys mapping ++ [p])
        by (unfold first_seen_step; by rewrite Hi).
      rewrite Hfs.
      destruct (IH _ _ _ _ (numbered_snoc mapping p Hnum) H)
        as (Hnum' & Hkeys & Hnf & new & -> & Hres).
      rewrite dict_keys_snoc in Hkeys.
      split; [exact Hnum'|]. split; [exact Hkeys|].
      split; [by constructor|].
      exists (dict_len mapping :: new). split; [by rewrite <- app_assoc|].
      constructor; [|exact Hres].
      destruct (first_seen_steps_prefix (dict_keys mapping ++ [p]) pts) as [more Hmore].
      rewrite Hkeys, Hmore. apply resolved_mono.
      exists (length mapping). split; [|reflexivity].
      rewrite (index_of_app_None _ _ _ Hi). simpl.
      rewrite key_eqb_refl, Hp. simpl. rewrite length_dict_keys. f_equal. lia.
Qed.

(** The loop over the points does not raise when no coordinate is NaN. *)
Lemma visit_nodes_total pts : forall mapping ids,
  numbered 0 mapping ->
  Forall (fun p => nan_free p = true) pts ->
  exists mapping' ids', foldR visit_node (mapping, ids) pts = Ok (mapping', ids').
Proof.
  induction pts as [|p pts IH]; intros mapping ids Hnum Hnf; cbn [foldR].
  - eauto.
  - inversion Hnf as [|? ? Hp Hnf']; subst.
    rewrite (visit_node_spec _ _ _ Hnum).
    destruct (index_of (dict_keys mapping) p); simpl.
    + by apply IH.
    + rewrite Hp. simpl. apply IH; [by apply numbered_snoc | exact Hnf'].
Qed.

(** ** The refinement loop *)

Lemma np_array_Ok {A} (rows a : array2 A) :
  np_array rows = Ok a -> a = rows /\ homogeneous rows = true.
Proof. unfold np_array. destruct (homogeneous rows); [|discriminate]. by intros [= <-]. Qed.

Section Loop.
Variable evaluate : Mesh -> Element -> array2 float -> result (array2 float).
Variable mesh : Mesh.

Lemma loop_pairs_spec (pairs : list (Element * array2 float)) :
  forall (m : dict) (xe : list (list Z)) m' xe',
  numbered 0 m ->
  foldR (fun st '(e, part) => visit_partition evaluate mesh e st part) (m, xe) pairs
    = Ok (m', xe') ->
  exists pts : list (list point),
    mapR (fun '(e, part) => evaluate mesh e part) pairs = Ok pts /\
    numbered 0 m' /\
    dict_keys m' = foldl first_seen_step (dict_keys m) (concat pts) /\
    Forall (Forall (fun p => nan_free p = true)) pts /\
    exists rows, xe' = xe ++ rows /\
      Forall2 (Forall2 (resolved (dict_keys m'))) pts rows.
Proof.
  induction pairs as [|[e part] pairs IH]; intros m xe m' xe' Hnum H; cbn [foldR mapR] in *.
  - injection H as <- <-. exists []. repeat split; try done.
    exists []. by rewrite app_nil_r.
  - apply bind_Ok in H. destruct H as ([m1 xe1] & Hstep & H).
    unfold visit_partition in Hstep.
    apply bind_Ok in Hstep. destruct Hstep as (new & Hev & Hstep).
    apply bind_Ok in Hstep. destruct Hstep as ([m1' ids] & Hnodes & Hstep).
    injection Hstep as <- <-.
    destruct (visit_nodes_spec _ _ _ _ _ Hnum Hnodes)
      as (Hnum1 & Hkeys1 & Hnf1 & ids' & -> & Hres1).
    destruct (IH _ _ _ _ Hnum1 H) as (pts & Hpts & Hnum' & Hkeys & Hnf & rows & -> & Hres).
    exists (new :: pts). rewrite Hev, Hpts. simpl.
    split; [reflexivity|]. split; [exact Hnum'|]. split.
    { by rewrite foldl_app, <- Hkeys1. }
    split; [by constructor|].
    exists (ids' :: rows). split; [by rewrite <- app_assoc|].
    constructor; [|exact Hres].
    destruct (first_seen_steps_prefix (dict_keys m1') (concat pts)) as [more Hmore].
    rewrite Hkeys, Hmore.
    eapply Forall2_impl; [exact Hres1|]. intros p i. apply resolved_mono.
Qed.

Lemma loop_pairs_total (pairs : list (Element * array2 float)) :
  forall (pts : list (list point)) (m : dict) (xe : list (list Z)),
  numbered 0 m ->
  mapR (fun '(e, part) => evaluate mesh e part) pairs = Ok pts ->
  Forall (Forall (fun p => nan_free p = true)) pts ->
  exists m' xe',
    foldR (fun st '(e, part) => visit_partition evaluate mesh e st part) (m, xe) pairs
      = Ok (m', xe').
Proof.
  induction pairs as [|[e part] pairs IH]; intros pts m xe Hnum Hpts Hnf;
    cbn [foldR mapR] in *.
  - eauto.
  - apply bind_Ok in Hpts. destruct Hpts as (new & Hev & Hpts).
    apply bind_Ok in Hpts. destruct Hpts as (pts' & Hpts' & Hpts).
    injection Hpts as <-. inversion Hnf as [|? ? Hnf1 Hnf']; subst.
    destruct (visit_nodes_total new m [] Hnum Hnf1) as (m1 & ids & Hnodes).
    assert (Hstep : visit_partition evaluate mesh e (m, xe) part = Ok (m1, xe ++ [ids])).
    { unfold visit_partition. rewrite Hev. simpl. rewrite Hnodes. reflexivity. }
    rewrite Hstep. simpl.
    destruct (visit_nodes_spec _ _ _ _ _ Hnum Hnodes) as (Hnum1 & _).
    by eapply IH.
Qed.

(** What a refinement returns, in terms of the evaluations it made. *)
Lemma refine_loop_Ok basis parts rm (xn : array2 float) (xe : array2 Z) :
  refine_loop evaluate mesh basis parts = Ok (rm, xn, xe) ->
  exists pts : list (list point),
    evaluations evaluate mesh parts = Ok pts /\
    xn = first_seen (concat pts) /\
    Forall2 (Forall2 (resolved xn)) pts xe /\
    Forall (Forall (fun p => nan_free p = true)) pts /\
    homogeneous xn = true /\ homogeneous xe = true /\
    create_morphic_mesh basis xn xe = Ok rm.
Proof.
  unfold refine_loop. intros H.
  apply bind_Ok in H. destruct H as ([m xe0] & Hloop & H).
  apply bind_Ok in H. destruct H as (xn' & Hxn & H).
  apply bind_Ok in H. destruct H as (xe' & Hxe & H).
  apply bind_Ok in H. destruct H as (rm' & Hrm & H).
  injection H as <- <- <-.
  apply np_array_Ok in Hxn, Hxe. destruct Hxn as [-> Hhn], Hxe as [-> Hhe].
  rewrite foldR_nested in Hloop.
  destruct (loop_pairs_spec _ [] [] m xe0 ltac:(intros i k v Hi; discriminate Hi) Hloop)
    as (pts & Hpts & _ & Hkeys & Hnf & rows & -> & Hres).
  exists pts. unfold evaluations, sub_elements. rewrite Hpts.
  repeat split; try assumption.
Qed.

(** A refinement returns when every evaluation does, without NaN, the
    arrays are rectangular and the mesh can be assembled. *)
Lemma refine_loop_total basis parts (pts : list (list point)) :
  evaluations evaluate mesh parts = Ok pts ->
  Forall (Forall (fun p => nan_free p = true)) pts ->
  exists (xe : array2 Z),
    Forall2 (Forall2 (resolved (first_seen (concat pts)))) pts xe /\
    (homogeneous (first_seen (concat pts)) = true ->
     homogeneous xe = true ->
     forall rm, create_morphic_mesh basis (first_seen (concat pts)) xe = Ok rm ->
     refine_loop evaluate mesh basis parts = Ok (rm, first_seen (concat pts), xe)).
Proof.
  intros Hpts Hnf. unfold evaluations, sub_elements in Hpts.
  destruct (loop_pairs_total _ pts [] [] ltac:(intros i k v Hi; discriminate Hi) Hpts Hnf)
    as (m' & xe' & Hloop).
  destruct (loop_pairs_spec _ [] [] m' xe' ltac:(intros i k v Hi; discriminate Hi) Hloop)
    as (pts' & Hpts' & _ & Hkeys & _ & rows & -> & Hres).
  assert (pts' = pts) by congruence. subst pts'.
  change (dict_keys m' = first_seen (concat pts)) in Hkeys.
  exists rows. simpl in Hres. split; [by rewrite <- Hkeys|].
  intros Hhn Hhe rm Hrm. unfold refine_loop.
  rewrite foldR_nested, Hloop. simpl. rewrite Hkeys.
  unfold np_array. rewrite Hhn, Hhe. simpl. rewrite Hrm. reflexivity.
Qed.
End Loop.


(** ** Reassembly of the refined mesh *)

Lemma enumerate_eq {A} (xs : list A) :
  enumerate xs = zip (Z.of_nat <$> seq 0 (length xs)) xs.
Proof. unfold enumerate, range. by rewrite Nat2Z.id. Qed.

Lemma nodes_from_lookup xn : forall s off i value,
  xn !! i = Some value ->
  nodes_from s off xn !! i =
    Some {| node_id := Z.of_nat (s + i) + 1; node_group := "_default";
            node_shape := [length value];
            node_offset := off + length (concat (take i xn)) |}.
Proof.
  induction xn as [|v xn IH]; intros s off i value Hi; [discriminate|].
  destruct i as [|i]; simpl in *.
  - injection Hi as ->. by rewrite !Nat.add_0_r.
  - rewrite (IH _ _ _ _ Hi). rewrite length_app. do 2 f_equal; [f_equal; lia | lia].
Qed.

Lemma length_nodes_from xn s off : length (nodes_from s off xn) = length xn.
Proof. revert s off. induction xn as [|v xn IH]; intros s off; simpl; [done|]. by rewrite IH. Qed.

Lemma elements_from_lookup basis xe : forall s j row,
  xe !! j = Some row ->
  elements_from basis s xe !! j =
    Some {| element_id := Z.of_nat (s + j) + 1; element_basis := basis;
            element_node_ids := (fun i => i + 1) <$> row |}.
Proof.
  induction xe as [|r xe IH]; intros s j row Hj; [discriminate|].
  destruct j as [|j]; simpl in *.
  - injection Hj as ->. by rewrite Nat.add_0_r.
  - rewrite (IH _ _ _ Hj). do 3 f_equal. lia.
Qed.

Lemma length_elements_from basis xe s : length (elements_from basis s xe) = length xe.
Proof. revert s. induction xe as [|r xe IH]; intros s; simpl; [done|]. by rewrite IH. Qed.

Lemma add_nodes_loop xn : forall s mesh,
  (forall n, n ∈ nodes mesh -> node_id n <= Z.of_nat s) ->
  foldR (fun mesh '(node_id, value) =>
           fst <$> add_stdnode mesh (node_id + 1) (array1 value) "_default")
        mesh (zip (Z.of_nat <$> seq s (length xn)) xn)
  = Ok {| core_P := core_P mesh ++ concat xn;
          nodes := nodes mesh ++ nodes_from s (length (core_P mesh)) xn;
          elements := elements mesh;
          generated := generated mesh |}.
Proof.
  induction xn as [|v xn IH]; intros s mesh Hids.
  - simpl. rewrite !app_nil_r. by destruct mesh.
  - cbn [length seq fmap list_fmap zip zip_with foldR].
    assert (Hadd : add_stdnode mesh (Z.of_nat s + 1) (array1 v) "_default" =
              Ok ({| core_P := core_P mesh ++ v;
                     nodes := nodes mesh ++
                       [{| node_id := Z.of_nat s + 1; node_group := "_default";
                           node_shape := [length v];
                           node_offset := length (core_P mesh) |}];
                     elements := elements mesh; generated := generated mesh |},
                  {| node_id := Z.of_nat s + 1; node_group := "_default";
                     node_shape := [length v];
                     node_offset := length (core_P mesh) |})).
    { unfold add_stdnode. rewrite bool_decide_eq_false_2; [reflexivity|].
      intros Hin. apply list_elem_of_fmap in Hin. destruct Hin as (n & Hn & Hin).
      specialize (Hids n Hin). lia. }
    rewrite Hadd. cbn [fmap result_fmap fst mbind result_bind].
    rewrite (IH (S s)).
    + cbn [core_P nodes elements generated array1 nd_data nd_shape nodes_from concat].
      rewrite length_app, <- !app_assoc. reflexivity.
    + cbn [nodes]. intros n Hin. apply elem_of_app in Hin. destruct Hin as [Hin|Hin].
      * specialize (Hids n Hin). lia.
      * apply list_elem_of_singleton in Hin. subst n. simpl. lia.
Qed.

Lemma add_element_Ok mesh id basis ids mesh' :
  add_element mesh id basis ids = Ok mesh' ->
  (exists counts, mapR local_node_count basis = Ok counts /\
     Z.of_nat (length ids) = product counts) /\
  mesh' = {| core_P := core_P mesh; nodes := nodes mesh;
             elements := elements mesh ++
               [{| element_id := id; element_basis := basis; element_node_ids := ids |}];
             generated := generated mesh |}.
Proof.
  unfold add_element. intros H. apply bind_Ok in H. destruct H as (counts & Hc & H).
  destruct (Z.of_nat (length ids) =? product counts) eqn:Hlen; simpl in H; [|discriminate].
  destruct (bool_decide _); [discriminate|]. injection H as <-.
  split; [|reflexivity]. exists counts. split; [exact Hc | lia].
Qed.

Lemma add_elements_loop basis (xe : array2 Z) rows : forall pre mesh,
  xe = pre ++ rows ->
  (forall e, e ∈ elements mesh -> element_id e <= Z.of_nat (length pre)) ->
  let loop :=
    foldR (fun mesh '(element_id, element) =>
             row ← getitem xe (Z.to_nat element_id);
             add_element mesh (element_id + 1) basis ((fun i => i + 1) <$> row))
          mesh (zip (Z.of_nat <$> seq (length pre) (length rows)) rows) in
  let final :=
    {| core_P := core_P mesh; nodes := nodes mesh;
       elements := elements mesh ++ elements_from basis (length pre) rows;
       generated := generated mesh |} in
  (forall mesh', loop = Ok mesh' ->
     mesh' = final /\
     Forall (fun row => exists counts, mapR local_node_count basis = Ok counts /\
                          Z.of_nat (length row) = product counts) rows) /\
  (forall counts, mapR local_node_count basis = Ok counts ->
     Forall (fun row => Z.of_nat (length row) = product counts) rows ->
     loop = Ok final).
Proof.
  induction rows as [|row rows IH]; intros pre mesh Hxe Hids; cbn zeta.
  - simpl. rewrite app_nil_r. split.
    + intros mesh' [= <-]. split; [by destruct mesh | constructor].
    + intros. by destruct mesh.
  - cbn [length seq fmap list_fmap zip zip_with foldR].
    assert (Hget : getitem xe (Z.to_nat (Z.of_nat (length pre))) = Ok row).
    { rewrite Nat2Z.id. apply getitem_Ok. subst xe.
      rewrite lookup_app_r by lia. by rewrite Nat.sub_diag. }
    rewrite Hget. cbn [mbind result_bind].
    set (e := {| element_id := Z.of_nat (length pre) + 1; element_basis := basis;
                 element_node_ids := (fun i => i + 1) <$> row |}).
    set (mesh1 := {| core_P := core_P mesh; nodes := nodes mesh;
                     elements := elements mesh ++ [e]; generated := generated mesh |}).
    assert (Hpre : xe = (pre ++ [row]) ++ rows) by (by rewrite <- app_assoc).
    assert (Hids1 : forall e', e' ∈ elements mesh1 ->
                      element_id e' <= Z.of_nat (length (pre ++ [row]))).
    { intros e' Hin. rewrite length_app. simpl in *.
      apply elem_of_app in Hin. destruct Hin as [Hin|Hin].
      - specialize (Hids e' Hin). lia.
      - apply list_elem_of_singleton in Hin. subst e'. simpl. lia. }
    destruct (IH (pre ++ [row]) mesh1 Hpre Hids1) as [IH1 IH2]. clear IH.
    rewrite length_app in IH1, IH2. simpl in IH1, IH2.
    replace (length pre + 1)%nat with (S (length pre)) in IH1, IH2 by lia.
    split.
    + intros mesh' H. apply bind_Ok in H. destruct H as (m1 & Hadd & H).
      apply add_element_Ok in Hadd. destruct Hadd as [Hcounts ->].
      fold e in H. fold mesh1 in H.
      destruct (IH1 mesh' H) as [-> Hall]. split.
      * subst mesh1 e. simpl. by rewrite <- app_assoc.
      * constructor; [|exact Hall].
        destruct Hcounts as (counts & Hc & Hl). exists counts. split; [exact Hc|].
        by rewrite length_fmap in Hl.
    + intros counts Hc Hall. inversion Hall as [|? ? Hrow Hall']; subst.
      assert (Hadd : add_element mesh (Z.of_nat (length pre) + 1) basis
                       ((fun i => i + 1) <$> row) = Ok mesh1).
      { unfold add_element. rewrite Hc. cbn [mbind result_bind].
        rewrite length_fmap, Hrow, Z.eqb_refl. simpl.
        rewrite bool_decide_eq_false_2; [reflexivity|].
        intros Hin. apply list_elem_of_fmap in Hin. destruct Hin as (e' & He' & Hin).
        specialize (Hids e' Hin). lia. }
      rewrite Hadd. cbn [mbind result_bind].
      rewrite (IH2 counts Hc Hall'). subst mesh1 e. simpl. by rewrite <- app_assoc.
Qed.

(** What [create_morphic_mesh] builds, and when it succeeds. *)
Lemma create_morphic_mesh_spec basis (xn : array2 float) (xe : array2 Z) :
  (forall mesh, create_morphic_mesh basis xn xe = Ok mesh ->
     mesh = assembled basis xn xe /\
     Forall (fun row => exists counts, mapR local_node_count basis = Ok counts /\
                          Z.of_nat (length row) = product counts) xe) /\
  (forall counts, mapR local_node_count basis = Ok counts ->
     Forall (fun row => Z.of_nat (length row) = product counts) xe ->
     create_morphic_mesh basis xn xe = Ok (assembled basis xn xe)).
Proof.
  unfold create_morphic_mesh. rewrite !enumerate_eq.
  rewrite (add_nodes_loop xn 0 Mesh_new) by (intros n Hn; inversion Hn).
  cbn [mbind result_bind Mesh_new core_P nodes elements generated app length].
  set (mesh1 := {| core_P := concat xn; nodes := nodes_from 0 0 xn;
                   elements := []; generated := false |}).
  destruct (add_elements_loop basis xe xe [] mesh1 eq_refl
              ltac:(intros e He; inversion He)) as [H1 H2].
  cbn zeta in H1, H2. simpl length in H1, H2. split.
  - intros mesh H. apply bind_Ok in H. destruct H as (mesh2 & Hloop & H).
    injection H as <-. destruct (H1 mesh2 Hloop) as [-> Hall].
    split; [reflexivity | exact Hall].
  - intros counts Hc Hall. rewrite (H2 counts Hc Hall). reflexivity.
Qed.

(** ** When a refinement returns *)

Lemma evaluate_returnsb_spec evaluate mesh d parts :
  evaluate_returnsb evaluate mesh d parts = true ->
  evaluate_returns evaluate mesh d parts.
Proof.
  unfold evaluate_returnsb, evaluate_returns. intros H elem part He Hp.
  rewrite forallb_forall in H. specialize (H elem (proj1 (list_elem_of_In _ _) He)).
  rewrite forallb_forall in H. exact (H part (proj1 (list_elem_of_In _ _) Hp)).
Qed.

Lemma returns_check_Ok d part r :
  returns_check d part r = true ->
  exists pts, r = Ok pts /\ length pts = length part /\
    Forall (fun p => length p = d) pts /\ Forall (fun p => nan_free p = true) pts.
Proof.
  destruct r as [pts|e]; simpl; [|discriminate].
  rewrite andb_true_iff, Nat.eqb_eq, forallb_forall. intros [Hl Hall].
  exists pts. split; [reflexivity|]. split; [exact Hl|].
  split; apply Forall_forall; intros p Hp; apply list_elem_of_In in Hp;
    specialize (Hall p Hp); rewrite andb_true_iff, Nat.eqb_eq in Hall; tauto.
Qed.

Lemma mapR_Forall2 {A B} (f : A -> result B) (R : A -> B -> Prop) xs :
  (forall x, x ∈ xs -> exists y, f x = Ok y /\ R x y) ->
  exists ys, mapR f xs = Ok ys /\ Forall2 R xs ys.
Proof.
  induction xs as [|x xs IH]; intros H; simpl.
  - exists []. split; [reflexivity | constructor].
  - destruct (H x) as (y & Hy & HR); [apply list_elem_of_here|].
    destruct IH as (ys & Hys & HRs).
    { intros x' Hx'. apply H. by apply list_elem_of_further. }
    exists (y :: ys). rewrite Hy, Hys. split; [reflexivity | by constructor].
Qed.

Lemma elem_of_sub_elements mesh parts elem part :
  (elem, part) ∈ sub_elements mesh parts <-> elem ∈ elements mesh /\ part ∈ parts.
Proof.
  unfold sub_elements. rewrite list_elem_of_bind. split.
  - intros (e & Hin & He). apply list_elem_of_bind in Hin.
    destruct Hin as (p & Hin & Hp). apply list_elem_of_singleton in Hin.
    injection Hin as -> ->. by split.
  - intros [He Hp]. exists elem. split; [|exact He].
    apply list_elem_of_bind. exists part. split; [|exact Hp]. apply list_elem_of_here.
Qed.

Lemma length_sub_elements mesh (parts : list (array2 float)) :
  length (sub_elements mesh parts) = (length (elements mesh) * length parts)%nat.
Proof.
  unfold sub_elements. apply length_bind_uniform. intros e.
  rewrite (length_bind_uniform _ _ 1); [lia | reflexivity].
Qed.

Lemma evaluations_length evaluate mesh parts pts :
  evaluations evaluate mesh parts = Ok pts ->
  length pts = (length (elements mesh) * length parts)%nat.
Proof.
  intros H. apply mapR_Ok_length in H. by rewrite H, length_sub_elements.
Qed.

Lemma first_seen_steps_Forall (P : point -> Prop) pts : forall keys,
  Forall P keys -> Forall P pts -> Forall P (foldl first_seen_step keys pts).
Proof.
  induction pts as [|p pts IH]; intros keys Hk Hp; simpl; [exact Hk|].
  inversion Hp; subst. apply IH; [|assumption].
  unfold first_seen_step. destruct (index_of keys p); [exact Hk|].
  apply Forall_app. split; [exact Hk | by constructor].
Qed.

Lemma first_seen_Forall (P : point -> Prop) pts :
  Forall P pts -> Forall P (first_seen pts).
Proof. apply first_seen_steps_Forall. constructor. Qed.

Lemma homogeneous_Forall {A} (rows : list (list A)) n :
  Forall (fun r => length r = n) rows -> homogeneous rows = true.
Proof.
  destruct 1 as [|r rows Hr Hall]; simpl; [reflexivity|].
  apply forallb_forall. intros r' Hin. apply list_elem_of_In in Hin.
  rewrite Forall_forall in Hall. rewrite (Hall r' Hin), Hr. apply Nat.eqb_refl.
Qed.

Lemma local_node_count_supported basis nn :
  get_num_elem_nodes basis = Ok nn -> mapR local_node_count basis = Ok nn.
Proof.
  intros H. apply get_num_elem_nodes_Ok in H.
  by destruct H as [[-> ->]|[[-> ->]|[-> ->]]].
Qed.

Lemma Forall2_Forall2_length {A B} (R : A -> B -> Prop) (xss : list (list A)) yss n :
  Forall2 (Forall2 R) xss yss ->
  Forall (fun xs => length xs = n) xss -> Forall (fun ys => length ys = n) yss.
Proof.
  induction 1 as [|xs ys xss yss H _ IH]; intros Hall; [constructor|].
  inversion Hall; subst. constructor; [|by apply IH].
  symmetry. rewrite <- (Forall2_length _ _ _ H). reflexivity.
Qed.

(** With a supported target basis, canonical grid [grid] and partitions
    [parts] of as many rows as the grid, the loop returns as soon as the
    evaluations do. *)
Lemma refine_loop_returns evaluate mesh basis nn (grid : array2 float) parts d :
  get_num_elem_nodes basis = Ok nn ->
  Z.of_nat (length grid) = product nn ->
  Forall (fun part : array2 float => length part = length grid) parts ->
  evaluate_returns evaluate mesh d parts ->
  exists rm xn xe,
    refine_loop evaluate mesh basis parts = Ok (rm, xn, xe) /\
    length xe = (length (elements mesh) * length parts)%nat.
Proof.
  intros Hnn Hlen Hparts Hret.
  destruct (mapR_Forall2
              (fun '(elem, xi_part) => evaluate mesh elem xi_part)
              (fun (pair : Element * array2 float) (pts : list point) =>
                 length pts = length grid /\
                 Forall (fun p => length p = d) pts /\
                 Forall (fun p => nan_free p = true) pts)
              (sub_elements mesh parts)) as (pts & Hpts & Hall).
  { intros [elem part] Hin. apply elem_of_sub_elements in Hin. destruct Hin as [He Hp].
    destruct (returns_check_Ok _ _ _ (Hret elem part He Hp)) as (ps & Hev & Hl & Hd & Hn).
    exists ps. split; [exact Hev|]. split; [|by split].
    rewrite Hl. rewrite Forall_forall in Hparts. by apply Hparts. }
  assert (Hnf : Forall (Forall (fun p => nan_free p = true)) pts).
  { clear -Hall. induction Hall as [|? ? ? ? (_ & _ & ?) _ IH]; by constructor. }
  assert (Hd : Forall (Forall (fun p => length p = d)) pts).
  { clear -Hall. induction Hall as [|? ? ? ? (_ & ? & _) _ IH]; by constructor. }
  assert (Hl : Forall (fun ps => length ps = length grid) pts).
  { clear -Hall. induction Hall as [|? ? ? ? (? & _ & _) _ IH]; by constructor. }
  destruct (refine_loop_total evaluate mesh basis parts pts Hpts Hnf) as (xe & Hres & Hloop).
  pose proof (Forall2_Forall2_length _ _ _ _ Hres Hl) as Hxe.
  exists (assembled basis (first_seen (concat pts)) xe), (first_seen (concat pts)), xe.
  split.
  - apply Hloop.
    + apply (homogeneous_Forall _ d), first_seen_Forall, Forall_concat, Hd.
    + by apply (homogeneous_Forall _ (length grid)).
    + eapply (proj2 (create_morphic_mesh_spec basis _ xe)).
      * by apply local_node_count_supported.
      * eapply Forall_impl; [exact Hxe|]. intros row Hrow. simpl in Hrow. lia.
  - rewrite <- (Forall2_length _ _ _ Hres). by apply evaluations_length in Hpts.
Qed.

(** ** The parametric points that are evaluated *)

Lemma columns_T3_lookup_bind {A} (a b c : list A) r :
  columns_T [a; b; c] !! r =
    a !! r ≫= fun x => b !! r ≫= fun y => c !! r ≫= fun z => Some [x; y; z].
Proof.
  cbn [columns_T]. rewrite lookup_zip_with. destruct (a !! r); [|reflexivity]. simpl.
  rewrite lookup_zip_with. destruct (b !! r); [|reflexivity]. simpl.
  rewrite list_lookup_fmap. by destruct (c !! r).
Qed.

Lemma remap_rows_columns (b1 b2 b3 : float * float) (c0 c1 c2 : list float) :
  columns_T [remap b1 c0; c1; c2] = remap_rows 0 b1 (columns_T [c0; c1; c2]) /\
  columns_T [c0; remap b2 c1; c2] = remap_rows 1 b2 (columns_T [c0; c1; c2]) /\
  columns_T [c0; c1; remap b3 c2] = remap_rows 2 b3 (columns_T [c0; c1; c2]) /\
  columns_T [remap b1 c0; remap b2 c1; remap b3 c2] =
    remap_rows 0 b1 (remap_rows 1 b2 (remap_rows 2 b3 (columns_T [c0; c1; c2]))).
Proof.
  repeat split; apply list_eq; intros r; unfold remap_rows, remap;
    rewrite ?list_lookup_fmap, !columns_T3_lookup_bind, ?list_lookup_fmap;
    destruct (c0 !! r), (c1 !! r), (c2 !! r); reflexivity.
Qed.

Lemma remap_rows_lookup axis b (grid : array2 float) r row :
  grid !! r = Some row ->
  remap_rows axis b grid !! r = Some (alter (affine b) axis row) /\
  alter (affine b) axis row !! axis = affine b <$> row !! axis /\
  (forall k, k <> axis -> alter (affine b) axis row !! k = row !! k) /\
  length (alter (affine b) axis row) = length row.
Proof.
  intros H. unfold remap_rows. rewrite list_lookup_fmap, H. simpl.
  split; [reflexivity|]. split; [apply list_lookup_alter_eq|].
  split; [intros k Hk; by apply list_lookup_alter_ne | apply length_alter].
Qed.

Lemma length_remap_rows axis b (grid : array2 float) :
  length (remap_rows axis b grid) = length grid.
Proof. unfold remap_rows. by rewrite length_fmap. Qed.

(** The partitions of the four entry points, for a supported basis. *)
Lemma xi_partitions_supported basis nn :
  get_num_elem_nodes basis = Ok nn ->
  exists grid : array2 float,
    generate_xi_grid nn 3 = Ok grid /\ rows3 grid /\
    Z.of_nat (length grid) = product nn /\
    (forall fac,
       xi_partitions_xi1 grid fac =
         Ok ((fun b => remap_rows 0 b grid) <$> elem_partitions fac) /\
       xi_partitions_xi2 grid fac =
         Ok ((fun b => remap_rows 1 b grid) <$> elem_partitions fac) /\
       xi_partitions_xi3 grid fac =
         Ok ((fun b => remap_rows 2 b grid) <$> elem_partitions fac)) /\
    (forall fa fb fc rest,
       xi_partitions_full grid (fa :: fb :: fc :: rest) =
         Ok ((fun '(b1, b2, b3) =>
                remap_rows 0 b1 (remap_rows 1 b2 (remap_rows 2 b3 grid))) <$>
             partition_triples (elem_partitions fa) (elem_partitions fb)
                               (elem_partitions fc))).
Proof.
  intros Hnn. destruct (generate_xi_grid_rows3 basis nn Hnn) as (grid & Hg & H3 & Hl).
  exists grid. split; [exact Hg|]. split; [exact H3|]. split; [exact Hl|].
  destruct (column_rows3 grid H3) as (c0 & c1 & c2 & H0 & H1 & H2 & L0 & L1 & L2 & E).
  assert (L10 : length c1 = length c0) by congruence.
  assert (L20 : length c2 = length c0) by congruence.
  split.
  - intros fac.
    rewrite (xi_partitions_xi1_Ok grid c0 c1 c2 H0 H1 H2 L10 L20).
    rewrite (xi_partitions_xi2_Ok grid c0 c1 c2 H0 H1 H2 L10 L20).
    rewrite (xi_partitions_xi3_Ok grid c0 c1 c2 H0 H1 H2 L10 L20).
    repeat split; f_equal; apply list_fmap_ext; intros i b _;
      destruct (remap_rows_columns b b b c0 c1 c2) as (E1 & E2 & E3 & _);
      rewrite E; assumption.
  - intros fa fb fc rest.
    rewrite (xi_partitions_full_Ok grid c0 c1 c2 H0 H1 H2 L10 L20).
    f_equal. apply list_fmap_ext. intros i [[b1 b2] b3] _.
    destruct (remap_rows_columns b1 b2 b3 c0 c1 c2) as (_ & _ & _ & E4).
    rewrite E. exact E4.
Qed.

Lemma refinement_unfold evaluate mesh basis nn (grid : array2 float) :
  get_num_elem_nodes basis = Ok nn ->
  generate_xi_grid nn 3 = Ok grid ->
  (forall fac,
     mesh_refine_along_xi1 evaluate mesh basis fac =
       refine_loop evaluate mesh basis
         ((fun b => remap_rows 0 b grid) <$> elem_partitions fac) /\
     mesh_refine_along_xi2 evaluate mesh basis fac =
       refine_loop evaluate mesh basis
         ((fun b => remap_rows 1 b grid) <$> elem_partitions fac) /\
     mesh_refine_along_xi3 evaluate mesh basis fac =
       refine_loop evaluate mesh basis
         ((fun b => remap_rows 2 b grid) <$> elem_partitions fac)) /\
  (forall fa fb fc rest,
     full_refinement evaluate mesh basis (fa :: fb :: fc :: rest) =
       refine_loop evaluate mesh basis
         ((fun '(b1, b2, b3) =>
             remap_rows 0 b1 (remap_rows 1 b2 (remap_rows 2 b3 grid))) <$>
          partition_triples (elem_partitions fa) (elem_partitions fb)
                            (elem_partitions fc))).
Proof.
  intros Hnn Hg.
  destruct (xi_partitions_supported basis nn Hnn) as (grid' & Hg' & _ & _ & H1 & H2).
  assert (grid' = grid) by congruence. subst grid'.
  unfold mesh_refine_along_xi1, mesh_refine_along_xi2, mesh_refine_along_xi3,
    full_refinement. rewrite Hnn. cbn [mbind result_bind]. rewrite Hg.
  cbn [mbind result_bind]. split.
  - intros fac. destruct (H1 fac) as (-> & -> & ->). repeat split.
  - intros fa fb fc rest. rewrite H2. reflexivity.
Qed.

(** ** Node sets and relabelling *)

Lemma resolved_key keys p i :
  resolved keys p i ->
  exists k, keys !! Z.to_nat i = Some k /\ key_eqb k p = true /\ 0 <= i.
Proof.
  intros (n & Hn & ->). apply index_of_Some in Hn. destruct Hn as (k & Hk & Hkp & _).
  exists k. rewrite Nat2Z.id. split; [exact Hk|]. split; [exact Hkp | lia].
Qed.



Lemma Forall2_Forall2_concat {A B} (R : A -> B -> Prop) xss yss :
  Forall2 (Forall2 R) xss yss -> Forall2 R (concat xss) (concat yss).
Proof.
  induction 1 as [|xs ys xss yss H _ IH]; simpl; [constructor|].
  by apply Forall2_app.
Qed.

(** The node array of a refinement holds the evaluated points, each once. *)
Lemma first_seen_same_points (pts : list point) (ids : list Z) :
  Forall (fun p => nan_free p = true) pts ->
  Forall2 (resolved (first_seen pts)) pts ids ->
  same_points (first_seen pts) pts.
Proof.
  intros Hnf Hres. split.
  - intros p Hp. exists p.
    assert (Hin : Forall (fun q => q ∈ pts /\ nan_free q = true) (first_seen pts)).
    { apply first_seen_Forall. apply Forall_forall. intros q Hq. split; [exact Hq|].
      rewrite Forall_forall in Hnf. by apply Hnf. }
    rewrite Forall_forall in Hin. destruct (Hin p Hp) as [H1 H2].
    split; [exact H1 | by rewrite key_eqb_refl].
  - intros q Hq. apply list_elem_of_lookup in Hq. destruct Hq as [j Hj].
    destruct (Forall2_lookup_l _ _ _ _ _ Hres Hj) as (i & _ & Hr).
    destruct (resolved_key _ _ _ Hr) as (k & Hk & Hkq & _).
    exists k. split; [|exact Hkq]. eapply list_elem_of_lookup_2, Hk.
Qed.




(** ** Node values of an assembled mesh *)

Lemma take_drop_concat {A} (xss : list (list A)) i xs :
  xss !! i = Some xs ->
  take (length xs) (drop (length (concat (take i xss))) (concat xss)) = xs.
Proof.
  revert i. induction xss as [|ys xss IH]; intros i Hi; [discriminate|].
  destruct i as [|i]; simpl in Hi.
  - injection Hi as ->. exact (take_app_length xs (concat xss)).
  - change (take (length xs)
              (drop (length (ys ++ concat (take i xss))) (ys ++ concat xss)) = xs).
    rewrite length_app, <- drop_drop, drop_app_length. by apply IH.
Qed.

Lemma assembled_node basis (xn : array2 float) (xe : array2 Z) i value :
  xn !! i = Some value ->
  exists node, nodes (assembled basis xn xe) !! i = Some node /\
    node_id node = Z.of_nat i + 1 /\
    node_group node = "_default" /\
    Node_values (assembled basis xn xe) node = array1 value.
Proof.
  intros Hi. eexists. split.
  - simpl. apply (nodes_from_lookup xn 0 0 i value Hi).
  - simpl. repeat split. unfold Node_values, array1. simpl. f_equal.
    rewrite Nat.mul_1_r. by apply take_drop_concat.
Qed.

Lemma assembled_element basis (xn : array2 float) (xe : array2 Z) j row :
  xe !! j = Some row ->
  elements (assembled basis xn xe) !! j =
    Some {| element_id := Z.of_nat j + 1; element_basis := basis;
            element_node_ids := (fun i => i + 1) <$> row |}.
Proof. intros Hj. simpl. apply (elements_from_lookup basis xe 0 j row Hj). Qed.

(** ** The four entry points as one loop *)

Lemma xi_partitions_full_needs_three_factors (grid : array2 float) facs parts :
  xi_partitions_full grid facs = Ok parts ->
  exists fa fb fc rest, facs = fa :: fb :: fc :: rest.
Proof.
  unfold xi_partitions_full. intros Hp.
  apply bind_Ok in Hp. destruct Hp as (fa & Ha & Hp).
  apply bind_Ok in Hp. destruct Hp as (fb & Hb & Hp).
  apply bind_Ok in Hp. destruct Hp as (fc & Hc & _).
  apply getitem_Ok in Ha, Hb, Hc.
  destruct facs as [|a [|b [|c rest]]]; try discriminate.
  by exists a, b, c, rest.
Qed.

Lemma refine_unfold evaluate mesh basis call :
  refine evaluate mesh basis call =
    (nn ← get_num_elem_nodes basis;
     grid ← generate_xi_grid nn 3;
     parts ← call_partitions grid call;
     refine_loop evaluate mesh basis parts).
Proof. by destruct call. Qed.

(** A call that returns has run the loop on its partitions, each of as many
    rows as the canonical grid. *)
Lemma refine_Ok evaluate mesh basis call r :
  refine evaluate mesh basis call = Ok r ->
  exists (nn : list Z) (grid : array2 float) (parts : list (array2 float)),
    get_num_elem_nodes basis = Ok nn /\
    generate_xi_grid nn 3 = Ok grid /\
    call_partitions grid call = Ok parts /\
    refine_loop evaluate mesh basis parts = Ok r /\
    Forall (fun part : array2 float => length part = length grid) parts.
Proof.
  rewrite refine_unfold. intros H.
  apply bind_Ok in H. destruct H as (nn & Hnn & H).
  apply bind_Ok in H. destruct H as (grid & Hg & H).
  apply bind_Ok in H. destruct H as (parts & Hp & H).
  exists nn, grid, parts. repeat (split; [assumption|]).
  destruct (xi_partitions_supported basis nn Hnn) as (grid' & Hg' & _ & _ & H1 & H2).
  assert (grid' = grid) by congruence. subst grid'.
  destruct call as [fac|fac|fac|facs]; simpl in Hp.
  - destruct (H1 fac) as (E & _ & _). rewrite E in Hp. injection Hp as <-.
    apply Forall_fmap_const. intros b. apply length_remap_rows.
  - destruct (H1 fac) as (_ & E & _). rewrite E in Hp. injection Hp as <-.
    apply Forall_fmap_const. intros b. apply length_remap_rows.
  - destruct (H1 fac) as (_ & _ & E). rewrite E in Hp. injection Hp as <-.
    apply Forall_fmap_const. intros b. apply length_remap_rows.
  - destruct (xi_partitions_full_needs_three_factors _ _ _ Hp)
      as (fa & fb & fc & rest & ->).
    rewrite H2 in Hp. injection Hp as <-.
    apply Forall_fmap_const. intros [[b1 b2] b3]. by rewrite !length_remap_rows.
Qed.

Lemma first_seen_head p rest : first_seen (p :: rest) !! 0%nat = Some p.
Proof.
  unfold first_seen. simpl. unfold first_seen_step at 2. simpl.
  destruct (first_seen_steps_prefix [p] rest) as [more ->]. reflexivity.
Qed.

(** ** Examples *)

(** [0.1 + 0.2] and [0.3] differ by one unit in the last place and are two
    keys; the two zeros are one key; a NaN is equal to nothing. *)
Example tuple_equality_is_exact :
  key_eqb [fadd (int_truediv 1 10) (int_truediv 2 10); f0; f0]
          [int_truediv 3 10; f0; f0] = false /\
  key_eqb [f0; f0; f0] [fneg0; f0; f0] = true /\
  key_eqb [S754_nan; f0; f0] [S754_nan; f0; f0] = false.
Proof. repeat split. Qed.

(** Refinements of the unit cube with a quadratic target: factor 2 along an
    axis gives 2 elements and 5 x 3 x 3 = 45 nodes, the 9 nodes of the
    common face being shared; factors (2, 2, 2) give 8 elements and
    5^3 = 125 nodes. *)
Example refine_unit_cube :
  (fun '(rm, xn, xe) => (length xn, length xe, length (nodes rm), length (elements rm)))
    <$> mesh_refine_along_xi1 Element_evaluate unit_cube L2 2
    = Ok (45, 2, 45, 2)%nat /\
  (fun '(rm, xn, xe) => (length xn, length xe))
    <$> mesh_refine_along_xi2 Element_evaluate unit_cube L2 2 = Ok (45, 2)%nat /\
  (fun '(rm, xn, xe) => (length xn, length xe))
    <$> mesh_refine_along_xi3 Element_evaluate unit_cube L2 2 = Ok (45, 2)%nat /\
  (fun '(rm, xn, xe) => (length xn, length xe))
    <$> full_refinement Element_evaluate unit_cube L2 [2; 2; 2] = Ok (125, 8)%nat.
Proof. repeat split; vm_compute; reflexivity. Qed.

(** ** Writing node values through the store *)

Lemma axis_indices_Ok n sel rows :
  axis_indices n sel = Ok rows -> NoDup rows /\ Forall (fun i => (i < n)%nat) rows.
Proof.
  unfold axis_indices. destruct sel as [i|start stop].
  - destruct ((0 <=? _) && (_ <? _)) eqn:Hin; [|discriminate].
    intros [= <-]. apply andb_true_iff in Hin. destruct Hin as [H1 H2].
    split; [apply NoDup_singleton|]. constructor; [lia | constructor].
  - intros [= <-]. split; [apply NoDup_seq|].
    apply Forall_forall. intros i Hi. apply elem_of_seq in Hi.
    unfold clamp in *. lia.
Qed.

Lemma positions_Ok shape : forall index ps,
  positions shape index = Ok ps ->
  NoDup ps /\ Forall (fun p => (p < size_of shape)%nat) ps.
Proof.
  induction shape as [|n shape IH]; intros index ps H; simpl in H.
  - destruct index; [|discriminate]. injection H as <-.
    split; [apply NoDup_singleton|]. constructor; [simpl; lia | constructor].
  - apply bind_Ok in H. destruct H as (rows & Hrows & H).
    apply bind_Ok in H. destruct H as (inner & Hinner & H).
    injection H as <-.
    apply axis_indices_Ok in Hrows. destruct Hrows as [Hnd Hlt].
    apply IH in Hinner. destruct Hinner as [Hnd' Hlt'].
    rewrite Forall_forall in Hlt, Hlt'.
    assert (Hmem : forall i y, y ∈ (inner ≫= fun p => [(i * size_of shape + p)%nat]) ->
                     exists p, p ∈ inner /\ y = (i * size_of shape + p)%nat).
    { intros i y Hy. apply list_elem_of_bind in Hy. destruct Hy as (p & Hy & Hp).
      apply list_elem_of_singleton in Hy. eauto. }
    split.
    + apply NoDup_bind; [| |exact Hnd].
      * intros i1 i2 y _ _ H1 H2.
        destruct (Hmem _ _ H1) as (p1 & Hp1 & ->).
        destruct (Hmem _ _ H2) as (p2 & Hp2 & E).
        pose proof (Hlt' p1 Hp1). pose proof (Hlt' p2 Hp2). nia.
      * intros i _. apply NoDup_bind; [| |exact Hnd'].
        -- intros p1 p2 y _ _ H1 H2.
           apply list_elem_of_singleton in H1, H2. lia.
        -- intros p _. apply NoDup_singleton.
    + apply Forall_forall. intros y Hy.
      apply list_elem_of_bind in Hy. destruct Hy as (i & Hy & Hi).
      destruct (Hmem _ _ Hy) as (p & Hp & ->).
      specialize (Hlt i Hi). specialize (Hlt' p Hp).
      change (size_of (n :: shape)) with (n * size_of shape)%nat. nia.
Qed.

Lemma rhs_values_Ok count r vs : rhs_values count r = Ok vs -> length vs = count.
Proof.
  destruct r as [x|xs]; simpl.
  - intros [= <-]. apply length_replicate.
  - destruct (length xs =? count)%nat eqn:E; [|discriminate].
    intros [= <-]. by apply Nat.eqb_eq.
Qed.

Lemma length_write_positions ps : forall store off vs,
  length (write_positions store off ps vs) = length store.
Proof.
  unfold write_positions.
  induction ps as [|p ps IH]; intros store off [|v vs]; simpl; try reflexivity.
  rewrite IH. apply length_insert.
Qed.

(** Store entries outside the written positions keep their values. *)
Lemma write_positions_other ps : forall store off vs (j : nat),
  j ∉ (fun p => (off + p)%nat) <$> ps ->
  write_positions store off ps vs !! j = store !! j.
Proof.
  unfold write_positions.
  induction ps as [|p ps IH]; intros store off [|v vs] j Hj; simpl; try reflexivity.
  rewrite fmap_cons, not_elem_of_cons in Hj. destruct Hj as [Hne Hj].
  rewrite IH by exact Hj. by apply list_lookup_insert_ne.
Qed.

(** Every written position holds its new value. *)
Lemma write_positions_lookup ps : forall store off vs (k p : nat) v,
  NoDup ps -> ps !! k = Some p -> vs !! k = Some v ->
  (off + p < length store)%nat ->
  write_positions store off ps vs !! (off + p)%nat = Some v.
Proof.
  induction ps as [|p0 ps IH]; intros store off vs k p v Hnd Hp Hv Hlt; [discriminate|].
  destruct vs as [|v0 vs]; [discriminate|].
  apply NoDup_cons in Hnd. destruct Hnd as [Hnotin Hnd].
  change (write_positions store off (p0 :: ps) (v0 :: vs))
    with (write_positions (<[(off + p0)%nat := v0]> store) off ps vs).
  destruct k as [|k]; simpl in Hp, Hv.
  - injection Hp as ->. injection Hv as ->.
    rewrite write_positions_other.
    + by apply list_lookup_insert_eq.
    + intros Hin. apply list_elem_of_fmap in Hin. destruct Hin as (p' & E & Hp').
      assert (p' = p) by lia. subst p'. contradiction.
  - eapply IH; eauto. by rewrite length_insert.
Qed.

Lemma mapR_lookups {A B} (f : A -> result B) xs : forall ys,
  length ys = length xs ->
  (forall k x y, xs !! k = Some x -> ys !! k = Some y -> f x = Ok y) ->
  mapR f xs = Ok ys.
Proof.
  induction xs as [|x xs IH]; intros [|y ys] Hlen H; try discriminate; [reflexivity|].
  simpl. rewrite (H 0%nat x y eq_refl eq_refl). simpl.
  rewrite (IH ys); [reflexivity | by injection Hlen |].
  intros k x' y' Hx Hy. exact (H (S k) x' y' Hx Hy).
Qed.





(** ** test_nodevalues.py on the model *)

Example test_nodevalues_init :
  Node_values two_nodes.1.1 two_nodes.1.2 = Xn1 /\
  getitem_values two_nodes.1.1 two_nodes.1.2 [Span None None; At 0]
    = Ok [fz 0; int_truediv 3 10] /\
  getitem_values two_nodes.1.1 two_nodes.1.2 [At 1]
    = Ok [int_truediv 3 10; int_truediv 4 10; int_truediv 5 10] /\
  getitem_values two_nodes.1.1 two_nodes.1.2 [At 1; At 1] = Ok [int_truediv 4 10] /\
  core_P two_nodes.1.1 = nd_data Xn1 ++ nd_data Xn2.
Proof. repeat split. Qed.

Example test_set_all :
  core_P (set_values two_nodes.1.1 two_nodes.1.2 Xn2).1 = nd_data Xn2 ++ nd_data Xn2 /\
  Node_values (set_values two_nodes.1.1 two_nodes.1.2 Xn2).1 two_nodes.1.2 = Xn2.
Proof. split; reflexivity. Qed.

(** The four slice assignments of test_set_slices, one after the other:
    [node1.values[:, 0] = [99, 33]], [node2.values[1, 1:] = [11, 22]],
    [node2.values[1, 0] = 11] and [node1.values[0, -2:] = [23, 45]] write
    the store at [0, 3], at [10, 11], at 9 and at [1, 2]. *)
Example test_set_slices :
  let '(mesh, node1, node2) := two_nodes in
  let mesh1 := (setitem_values mesh node1 [Span None None; At 0]
                  (Values [fz 99; fz 33])).1 in
  let mesh2 := (setitem_values mesh1 node2 [At 1; Span (Some 1) None]
                  (Values [fz 11; fz 22])).1 in
  let mesh3 := (setitem_values mesh2 node2 [At 1; At 0] (Scalar (fz 11))).1 in
  let mesh4 := (setitem_values mesh3 node1 [At 0; Span (Some (-2)) None]
                  (Values [fz 23; fz 45])).1 in
  core_P mesh1 = [fz 99; int_truediv 1 10; int_truediv 2 10;
                  fz 33; int_truediv 4 10; int_truediv 5 10;
                  fz 11; fz 12; fz 13; fz 15; fz 16; fz 66] /\
  core_P mesh2 = [fz 99; int_truediv 1 10; int_truediv 2 10;
                  fz 33; int_truediv 4 10; int_truediv 5 10;
                  fz 11; fz 12; fz 13; fz 15; fz 11; fz 22] /\
  core_P mesh3 = [fz 99; int_truediv 1 10; int_truediv 2 10;
                  fz 33; int_truediv 4 10; int_truediv 5 10;
                  fz 11; fz 12; fz 13; fz 11; fz 11; fz 22] /\
  core_P mesh4 = [fz 99; fz 23; fz 45;
                  fz 33; int_truediv 4 10; int_truediv 5 10;
                  fz 11; fz 12; fz 13; fz 11; fz 11; fz 22] /\
  nd_data (Node_values mesh4 node1) =
    [fz 99; fz 23; fz 45; fz 33; int_truediv 4 10; int_truediv 5 10] /\
  nd_data (Node_values mesh4 node2) =
    [fz 11; fz 12; fz 13; fz 11; fz 11; fz 22].
Proof. vm_compute. repeat split. Qed.

(** ** binary64: products by one and by zero, sums with zero *)











(** ** Evaluation at the canonical grid of the element's own basis *)




















(** ** The exceptions of a refinement call *)

Lemma foldR_Raise {A S} (f : S -> A -> result S) s xs e :
  foldR f s xs = Raise e -> exists s' x, x ∈ xs /\ f s' x = Raise e.
Proof.
  revert s. induction xs as [|x xs IH]; intros s H; simpl in H; [discriminate H|].
  destruct (f s x) as [s'|e'] eqn:Hf; simpl in H.
  - destruct (IH s' H) as (s'' & y & Hy & Hfy).
    exists s'', y. split; [by apply list_elem_of_further | exact Hfy].
  - injection H as ->. exists s, x. split; [apply list_elem_of_here | exact Hf].
Qed.

Lemma visit_node_Raise st node e : visit_node st node = Raise e -> e = KeyError.
Proof.
  destruct st as [mapping ids]. unfold visit_node, dict_getitem.
  destruct (dict_get _ node); simpl; [discriminate | congruence].
Qed.

Lemma visit_partition_Raise evaluate mesh elem st part e :
  visit_partition evaluate mesh elem st part = Raise e ->
  evaluate mesh elem part = Raise e \/ e = KeyError.
Proof.
  destruct st as [mapping xe]. unfold visit_partition.
  destruct (evaluate mesh elem part) as [pts|e']; simpl; [|intros [= ->]; by left].
  destruct (foldR visit_node (mapping, []) pts) as [[m ids]|e'] eqn:Hloop; simpl;
    [discriminate|].
  intros [= ->]. right.
  destruct (foldR_Raise _ _ _ _ Hloop) as (s' & x & _ & Hx).
  by apply visit_node_Raise in Hx.
Qed.

(** With a supported basis, the reassembly can fail on the size of a
    connectivity row only. *)
Lemma create_morphic_mesh_Raise basis nn (xn : array2 float) (xe : array2 Z) e :
  get_num_elem_nodes basis = Ok nn ->
  create_morphic_mesh basis xn xe = Raise e ->
  e = ShapeMismatch \/ e = DuplicateId \/ e = IndexError.
Proof.
  intros Hnn. unfold create_morphic_mesh. rewrite !enumerate_eq.
  rewrite (add_nodes_loop xn 0 Mesh_new) by (intros n Hn; inversion Hn).
  cbn [mbind result_bind].
  match goal with |- context [foldR ?f ?s ?l] => destruct (foldR f s l) as [m|e'] eqn:Hloop end;
    simpl; [discriminate|].
  intros [= ->].
  destruct (foldR_Raise _ _ _ _ Hloop) as (s' & [id row] & _ & Hx).
  cbn beta iota in Hx.
  destruct (getitem xe (Z.to_nat id)) as [row'|e'] eqn:Hrow; simpl in Hx.
  - unfold add_element in Hx.
    rewrite (local_node_count_supported basis nn Hnn) in Hx. simpl in Hx.
    destruct (negb _); [injection Hx as <-; by left|].
    destruct (bool_decide _); [injection Hx as <-; right; by left | discriminate Hx].
  - injection Hx as <-. unfold getitem in Hrow.
    destruct (xe !! Z.to_nat id); [discriminate Hrow|]. injection Hrow as <-.
    right. by right.
Qed.

(** The exceptions of the loop and of what follows it: those of the element
    evaluations, KeyError for a point with a NaN, ValueError for points of
    different dimensions, and the errors of the reassembly. *)
Lemma refine_loop_Raise evaluate mesh basis nn parts e :
  get_num_elem_nodes basis = Ok nn ->
  refine_loop evaluate mesh basis parts = Raise e ->
  (exists elem part, elem ∈ elements mesh /\ part ∈ parts /\
     evaluate mesh elem part = Raise e) \/
  e = KeyError \/ e = ValueError \/ e = ShapeMismatch \/ e = DuplicateId \/
  e = IndexError.
Proof.
  intros Hnn. unfold refine_loop.
  match goal with |- context [foldR ?f ?s ?l] => destruct (foldR f s l) as [[m xe]|e'] eqn:Hloop end;
    simpl.
  - unfold np_array.
    destruct (homogeneous (dict_keys m)); simpl; [|intros [= <-]; auto].
    destruct (homogeneous xe); simpl; [|intros [= <-]; auto].
    destruct (create_morphic_mesh basis (dict_keys m) xe) as [rm|e'] eqn:Hmesh; simpl;
      [discriminate|].
    intros [= ->].
    destruct (create_morphic_mesh_Raise _ _ _ _ _ Hnn Hmesh) as [-> | [-> | ->]]; auto 10.
  - intros [= ->].
    destruct (foldR_Raise _ _ _ _ Hloop) as (st & elem & He & Hinner).
    destruct (foldR_Raise _ _ _ _ Hinner) as (st' & part & Hp & Hvisit).
    apply visit_partition_Raise in Hvisit. destruct Hvisit as [Hev | ->]; [|auto].
    left. exists elem, part. auto.
Qed.

Lemma xi_partitions_full_Raise basis nn (grid : array2 float) facs e :
  get_num_elem_nodes basis = Ok nn ->
  generate_xi_grid nn 3 = Ok grid ->
  xi_partitions_full grid facs = Raise e -> e = IndexError.
Proof.
  intros Hnn Hg.
  destruct (xi_partitions_supported basis nn Hnn) as (grid' & Hg' & _ & _ & _ & Hfull).
  assert (grid' = grid) by congruence. subst grid'.
  destruct facs as [|fa [|fb [|fc rest]]]; try (intros [= <-]; reflexivity).
  by rewrite Hfull.
Qed.

(** The exceptions of a refinement call with a supported target basis. *)
Lemma refine_Raise evaluate mesh basis nn call e :
  get_num_elem_nodes basis = Ok nn ->
  refine evaluate mesh basis call = Raise e ->
  (exists elem part, elem ∈ elements mesh /\ evaluate mesh elem part = Raise e) \/
  e = KeyError \/ e = ValueError \/ e = ShapeMismatch \/ e = DuplicateId \/
  e = IndexError.
Proof.
  intros Hnn. rewrite refine_unfold, Hnn. cbn [mbind result_bind].
  destruct (xi_partitions_supported basis nn Hnn) as (grid & Hg & _ & _ & Hsingle & _).
  rewrite Hg. cbn [mbind result_bind].
  destruct (call_partitions grid call) as [parts|e'] eqn:Hparts; simpl.
  - intros H. destruct (refine_loop_Raise _ _ _ _ _ _ Hnn H)
      as [(elem & part & He & _ & Hev)|Hother]; [|by right].
    left. by exists elem, part.
  - intros [= ->]. destruct call as [fac|fac|fac|facs]; simpl in Hparts.
    + destruct (Hsingle fac) as (E & _ & _). congruence.
    + destruct (Hsingle fac) as (_ & E & _). congruence.
    + destruct (Hsingle fac) as (_ & _ & E). congruence.
    + apply (xi_partitions_full_Raise basis nn grid facs) in Hparts; try assumption.
      subst. auto 10.
Qed.

(** * The claims *)




(** C1, as the code has it: every refinement call numbers the evaluated
    points in first-seen order from 0, keyed by their exact coordinate
    tuples; the returned node array lists the distinct points in that
    order, every connectivity entry is the index of the corresponding
    evaluated point, and two evaluated points share a node exactly when
    their tuples are equal under floating-point [==]: same length and,
    coordinate by coordinate, the same binary64 value or two zeros of any
    signs (no NaN, no tolerance). Points that differ by rounding are not
    merged; a negative and a positive zero are. *)
Theorem refinement_deduplicates_first_seen
    (evaluate : Mesh -> Element -> array2 float -> result (array2 float))
    (mesh : Mesh) (basis : basis_t) (call : refinement_call)
    (rm : Mesh) (xn : array2 float) (xe : array2 Z) :
  refine evaluate mesh basis call = Ok (rm, xn, xe) ->
  exists (nn : list Z) (grid : array2 float)
         (parts : list (array2 float)) (pts : list (list point)),
    get_num_elem_nodes basis = Ok nn /\
    generate_xi_grid nn 3 = Ok grid /\
    call_partitions grid call = Ok parts /\
    evaluations evaluate mesh parts = Ok pts /\
    xn = first_seen (concat pts) /\
    distinct_keys xn /\
    same_points xn (concat pts) /\
    (forall p rest, concat pts = p :: rest -> xn !! 0%nat = Some p) /\
    Forall2 (Forall2 (resolved xn)) pts xe /\
    (forall (a b : nat) (p q : point) (i j : Z),
        concat pts !! a = Some p -> concat pts !! b = Some q ->
        concat xe !! a = Some i -> concat xe !! b = Some j ->
        (i = j <-> key_eqb p q = true)) /\
    (forall p q : point,
        key_eqb p q = true <->
        Forall2 (fun x y => is_nan x = false /\
                   (x = y \/ exists s s', x = S754_zero s /\ y = S754_zero s')) p q).
Proof.
  intros H.
  destruct (refine_Ok _ _ _ _ _ H) as (nn & grid & parts & Hnn & Hg & Hparts & Hloop & _).
  destruct (refine_loop_Ok _ _ _ _ _ _ _ Hloop)
    as (pts & Hev & Hxn & Hres & Hnf & _ & _ & _).
  exists nn, grid, parts, pts.
  split; [exact Hnn|]. split; [exact Hg|]. split; [exact Hparts|].
  split; [exact Hev|]. split; [exact Hxn|].
  pose proof (Forall2_Forall2_concat _ _ _ Hres) as Hflat.
  split; [rewrite Hxn; apply first_seen_distinct|].
  split.
  { rewrite Hxn in Hflat |- *.
    eapply first_seen_same_points; [|exact Hflat]. by apply Forall_concat. }
  split.
  { intros p rest E. rewrite Hxn, E. apply first_seen_head. }
  split; [exact Hres|]. split.
  - intros a b p q i j Hp Hq Hi Hj.
    destruct (Forall2_lookup_l _ _ _ _ _ Hflat Hp) as (i' & Hi' & Hri).
    destruct (Forall2_lookup_l _ _ _ _ _ Hflat Hq) as (j' & Hj' & Hrj).
    assert (i' = i) by congruence. assert (j' = j) by congruence. subst i' j'.
    by apply (resolved_same_iff xn).
  - apply key_eqb_spec.
Qed.

Lemma refinement_deduplicates_first_seen_witness :
  exists rm xn xe,
    mesh_refine_along_xi1 Element_evaluate unit_cube L1 2 = Ok (rm, xn, xe) /\
    length xn = 12%nat /\ distinct_keys xn.
Proof.
  destruct (mesh_refine_along_xi1 Element_evaluate unit_cube L1 2)
    as [[[rm xn] xe]|e] eqn:Hrun; [|vm_compute in Hrun; discriminate Hrun].
  exists rm, xn, xe. split; [reflexivity|].
  destruct (refinement_deduplicates_first_seen Element_evaluate unit_cube L1
              (Along_xi1 2) rm xn xe Hrun)
    as (nn & grid & parts & pts & _ & _ & _ & _ & _ & Hd & _).
  split; [|exact Hd].
  vm_compute in Hrun. injection Hrun as <- <- <-. reflexivity.
Defined.

(** C1 as stated fails on zeros of different signs and on NaN. In the mesh
    made of the unit cube and of its mirror image, the corner (0., 0., 0.)
    of the cube and the corner (-0., 0., 0.) of the mirror image differ
    bitwise and receive the same index, so that the 16 evaluated corners
    give 12 nodes. In the cube with a NaN coordinate the evaluated point
    with the NaN is found equal to no key, not even to itself, and the call
    raises KeyError. *)
Lemma signed_zeros_share_a_node :
  (exists rm xn xe pts p q i j,
     full_refinement Element_evaluate cube_and_mirror L1 [1; 1; 1] = Ok (rm, xn, xe) /\
     evaluations Element_evaluate cube_and_mirror [grid_L1] = Ok pts /\
     concat pts !! 0%nat = Some p /\ concat pts !! 8%nat = Some q /\
     p = [f0; f0; f0] /\ q = [fneg0; f0; f0] /\
     concat xe !! 0%nat = Some i /\ concat xe !! 8%nat = Some j /\
     i = j /\ ~ bitwise_equal p q /\ length xn = 12%nat) /\
  full_refinement Element_evaluate cube_with_nan L1 [1; 1; 1] = Raise KeyError.
Proof.
  split; [|vm_compute; reflexivity].
  eexists _, _, _, _, _, _, _, _.
  split; [vm_compute; reflexivity|].
  split; [vm_compute; reflexivity|].
  split; [reflexivity|]. split; [reflexivity|].
  split; [reflexivity|]. split; [reflexivity|].
  split; [reflexivity|]. split; [reflexivity|].
  split; [reflexivity|]. split; [discriminate | reflexivity].
Qed.

(** C2: the interval [0, 1] of an axis with factor [f] is cut into the [f]
    sub-intervals (n / f, (n + 1) / f), n = 0 .. f - 1; full_refinement
    combines them over the three axes with the first axis outermost and the
    third innermost, which gives f1 * f2 * f3 partitions, the one at position
    (i * f2 + j) * f3 + k being the grid remapped by sub-intervals i, j and k;
    the connectivity it returns has E * f1 * f2 * f3 rows and that of a
    single-axis refinement by [f] has E * f rows, E the number of source
    elements; and the calls do return when the evaluations do. *)
Theorem full_refinement_partition_count
    (evaluate : Mesh -> Element -> array2 float -> result (array2 float))
    (mesh : Mesh) (basis : basis_t) (nn : list Z) (grid : array2 float)
    (fa fb fc : Z) (d : nat) :
  0 <= fa -> 0 <= fb -> 0 <= fc ->
  get_num_elem_nodes basis = Ok nn ->
  generate_xi_grid nn 3 = Ok grid ->
  (forall f n, 0 <= n < f ->
     elem_partitions f !! Z.to_nat n = Some (int_truediv n f, int_truediv (n + 1) f)) /\
  (forall f, 0 <= f -> Z.of_nat (length (elem_partitions f)) = f) /\
  (exists parts : list (array2 float),
     xi_partitions_full grid [fa; fb; fc] = Ok parts /\
     full_refinement evaluate mesh basis [fa; fb; fc] =
       refine_loop evaluate mesh basis parts /\
     Z.of_nat (length parts) = fa * fb * fc /\
     (forall i j k, 0 <= i < fa -> 0 <= j < fb -> 0 <= k < fc ->
        parts !! Z.to_nat ((i * fb + j) * fc + k) =
          Some (remap_rows 0 (int_truediv i fa, int_truediv (i + 1) fa)
                 (remap_rows 1 (int_truediv j fb, int_truediv (j + 1) fb)
                   (remap_rows 2 (int_truediv k fc, int_truediv (k + 1) fc) grid)))) /\
     (evaluate_returns evaluate mesh d parts ->
      exists rm xn xe, full_refinement evaluate mesh basis [fa; fb; fc] = Ok (rm, xn, xe))) /\
  (forall rm xn xe,
     full_refinement evaluate mesh basis [fa; fb; fc] = Ok (rm, xn, xe) ->
     Z.of_nat (length xe) = Z.of_nat (length (elements mesh)) * fa * fb * fc) /\
  (forall rm xn xe,
     mesh_refine_along_xi1 evaluate mesh basis fa = Ok (rm, xn, xe) \/
     mesh_refine_along_xi2 evaluate mesh basis fa = Ok (rm, xn, xe) \/
     mesh_refine_along_xi3 evaluate mesh basis fa = Ok (rm, xn, xe) ->
     Z.of_nat (length xe) = Z.of_nat (length (elements mesh)) * fa) /\
  (forall axis, (axis < 3)%nat ->
     evaluate_returns evaluate mesh d
       ((fun b => remap_rows axis b grid) <$> elem_partitions fa) ->
     exists rm xn xe,
       match axis with
       | 0%nat => mesh_refine_along_xi1 evaluate mesh basis fa
       | 1%nat => mesh_refine_along_xi2 evaluate mesh basis fa
       | _ => mesh_refine_along_xi3 evaluate mesh basis fa
       end = Ok (rm, xn, xe)).
Proof.
  intros Ha Hb Hc Hnn Hg.
  destruct (xi_partitions_supported basis nn Hnn) as (grid' & Hg' & _ & Hlen & _ & Hfull).
  assert (grid' = grid) by congruence. subst grid'.
  destruct (refinement_unfold evaluate mesh basis nn grid Hnn Hg) as [Hsingle Hfull'].
  assert (Hcount : forall parts rm xn xe,
            refine_loop evaluate mesh basis parts = Ok (rm, xn, xe) ->
            length xe = (length (elements mesh) * length parts)%nat).
  { intros parts rm xn xe Hloop.
    destruct (refine_loop_Ok _ _ _ _ _ _ _ Hloop) as (pts & Hev & _ & Hres & _).
    rewrite <- (Forall2_length _ _ _ Hres). by apply evaluations_length in Hev. }
  split.
  { intros f n Hn. rewrite lookup_elem_partitions by lia.
    by rewrite Z2Nat.id by lia. }
  split.
  { intros f Hf. rewrite length_elem_partitions. lia. }
  split.
  { eexists. split; [apply Hfull|]. split; [apply Hfull'|].
    rewrite length_fmap, length_partition_triples, !length_elem_partitions.
    split; [lia|]. split.
    - intros i j k Hi Hj Hk.
      rewrite list_lookup_fmap.
      replace (Z.to_nat ((i * fb + j) * fc + k))
        with ((Z.to_nat i * length (elem_partitions fb) + Z.to_nat j)
              * length (elem_partitions fc) + Z.to_nat k)%nat
        by (rewrite !length_elem_partitions; nia).
      rewrite (lookup_partition_triples _ _ _ _ _ _
                 (int_truediv i fa, int_truediv (i + 1) fa)
                 (int_truediv j fb, int_truediv (j + 1) fb)
                 (int_truediv k fc, int_truediv (k + 1) fc)).
      + reflexivity.
      + rewrite lookup_elem_partitions by lia. by rewrite Z2Nat.id by lia.
      + rewrite lookup_elem_partitions by lia. by rewrite Z2Nat.id by lia.
      + rewrite lookup_elem_partitions by lia. by rewrite Z2Nat.id by lia.
    - intros Hret. rewrite Hfull'.
      destruct (refine_loop_returns evaluate mesh basis nn grid
                  ((fun '(b1, b2, b3) =>
                      remap_rows 0 b1 (remap_rows 1 b2 (remap_rows 2 b3 grid))) <$>
                   partition_triples (elem_partitions fa) (elem_partitions fb)
                                     (elem_partitions fc)) d Hnn Hlen)
        as (rm & xn & xe & Hrun & _); [|exact Hret|eauto].
      apply Forall_fmap_const. intros [[b1 b2] b3]. by rewrite !length_remap_rows. }
  split.
  { intros rm xn xe Hrun. rewrite Hfull' in Hrun.
    rewrite (Hcount _ _ _ _ Hrun).
    rewrite length_fmap, length_partition_triples, !length_elem_partitions. nia. }
  split.
  { intros rm xn xe Hrun. destruct (Hsingle fa) as (E1 & E2 & E3).
    rewrite E1, E2, E3 in Hrun.
    destruct Hrun as [Hrun|[Hrun|Hrun]]; rewrite (Hcount _ _ _ _ Hrun);
      rewrite length_fmap, length_elem_partitions; nia. }
  intros axis Haxis Hret. destruct (Hsingle fa) as (E1 & E2 & E3).
  destruct (refine_loop_returns evaluate mesh basis nn grid
              ((fun b => remap_rows axis b grid) <$> elem_partitions fa) d Hnn Hlen)
    as (rm & xn & xe & Hrun & _); [|exact Hret|].
  { apply Forall_fmap_const. intros b. apply length_remap_rows. }
  exists rm, xn, xe.
  destruct axis as [|[|[|axis]]]; [by rewrite E1 | by rewrite E2 | by rewrite E3 | lia].
Qed.

Lemma full_refinement_partition_count_witness :
  (exists rm xn xe,
     full_refinement Element_evaluate unit_cube L1 [2; 1; 2] = Ok (rm, xn, xe)) /\
  (forall rm xn xe,
     full_refinement Element_evaluate unit_cube L1 [2; 1; 2] = Ok (rm, xn, xe) ->
     Z.of_nat (length xe) = Z.of_nat (length (elements unit_cube)) * 2 * 1 * 2).
Proof.
  assert (Hg : generate_xi_grid [2; 2; 2] 3 = Ok grid_L1) by (vm_compute; reflexivity).
  destruct (full_refinement_partition_count Element_evaluate unit_cube L1 [2; 2; 2]
              grid_L1 2 1 2 3 ltac:(lia) ltac:(lia) ltac:(lia) eq_refl Hg)
    as (_ & _ & (parts & Hparts & _ & _ & _ & Hret) & Hcount & _).
  split; [|exact Hcount].
  apply Hret. apply evaluate_returnsb_spec.
  vm_compute in Hparts. injection Hparts as <-. vm_compute. reflexivity.
Defined.

(** C3, as the code has it: no refinement function compares the target
    basis descriptor with the basis of the source elements. A call fails at
    the basis check, with ValueError, when the target descriptor is not one
    of the three uniform descriptors; with a supported target it returns
    whenever every evaluation of an element at a partition array returns
    one point per row of the array, all points with the same number [d] of
    coordinates and none with a NaN, whatever basis the source elements were
    built with. A call with a supported target that raises, raises the
    exception of an element evaluation, KeyError (a point with a NaN),
    ValueError (points of different dimensions), or ShapeMismatch,
    DuplicateId or IndexError; so it raises UnsupportedBasis only when an
    element evaluation does. *)
Theorem refinement_ignores_source_basis
    (evaluate : Mesh -> Element -> array2 float -> result (array2 float))
    (mesh : Mesh) (basis : basis_t) (nn : list Z) (grid : array2 float)
    (fac fa fb fc : Z) (d : nat) :
  get_num_elem_nodes basis = Ok nn ->
  generate_xi_grid nn 3 = Ok grid ->
  (evaluate_returns evaluate mesh d
     ((fun b => remap_rows 0 b grid) <$> elem_partitions fac) ->
   exists r, mesh_refine_along_xi1 evaluate mesh basis fac = Ok r) /\
  (evaluate_returns evaluate mesh d
     ((fun b => remap_rows 1 b grid) <$> elem_partitions fac) ->
   exists r, mesh_refine_along_xi2 evaluate mesh basis fac = Ok r) /\
  (evaluate_returns evaluate mesh d
     ((fun b => remap_rows 2 b grid) <$> elem_partitions fac) ->
   exists r, mesh_refine_along_xi3 evaluate mesh basis fac = Ok r) /\
  (evaluate_returns evaluate mesh d
     ((fun '(b1, b2, b3) =>
         remap_rows 0 b1 (remap_rows 1 b2 (remap_rows 2 b3 grid))) <$>
      partition_triples (elem_partitions fa) (elem_partitions fb) (elem_partitions fc)) ->
   exists r, full_refinement evaluate mesh basis [fa; fb; fc] = Ok r) /\
  (forall basis' : basis_t,
     basis' <> ["L1"; "L1"; "L1"] -> basis' <> ["L2"; "L2"; "L2"] ->
     basis' <> ["L3"; "L3"; "L3"] ->
     mesh_refine_along_xi1 evaluate mesh basis' fac = Raise ValueError /\
     mesh_refine_along_xi2 evaluate mesh basis' fac = Raise ValueError /\
     mesh_refine_along_xi3 evaluate mesh basis' fac = Raise ValueError /\
     full_refinement evaluate mesh basis' [fa; fb; fc] = Raise ValueError) /\
  (forall (call : refinement_call) (e : exn),
     refine evaluate mesh basis call = Raise e ->
     (exists elem part, elem ∈ elements mesh /\ evaluate mesh elem part = Raise e) \/
     e = KeyError \/ e = ValueError \/ e = ShapeMismatch \/ e = DuplicateId \/
     e = IndexError) /\
  (forall call : refinement_call,
     refine evaluate mesh basis call = Raise UnsupportedBasis ->
     exists elem part, elem ∈ elements mesh /\
       evaluate mesh elem part = Raise UnsupportedBasis).
Proof.
  intros Hnn Hg.
  destruct (xi_partitions_supported basis nn Hnn) as (grid' & Hg' & _ & Hlen & _).
  assert (grid' = grid) by congruence. subst grid'.
  destruct (refinement_unfold evaluate mesh basis nn grid Hnn Hg) as [Hsingle Hfull].
  destruct (Hsingle fac) as (E1 & E2 & E3).
  assert (Hloop : forall parts : list (array2 float),
            Forall (fun part : array2 float => length part = length grid) parts ->
            evaluate_returns evaluate mesh d parts ->
            exists r, refine_loop evaluate mesh basis parts = Ok r).
  { intros parts Hparts Hret.
    destruct (refine_loop_returns evaluate mesh basis nn grid parts d Hnn Hlen Hparts Hret)
      as (rm & xn & xe & Hrun & _). eauto. }
  split; [|split; [|split; [|split; [|split; [|split]]]]].
  - rewrite E1. apply Hloop, Forall_fmap_const. intros b. apply length_remap_rows.
  - rewrite E2. apply Hloop, Forall_fmap_const. intros b. apply length_remap_rows.
  - rewrite E3. apply Hloop, Forall_fmap_const. intros b. apply length_remap_rows.
  - rewrite Hfull. apply Hloop, Forall_fmap_const.
    intros [[b1 b2] b3]. by rewrite !length_remap_rows.
  - intros basis' H1 H2 H3. apply refinement_checks_basis_first.
    unfold get_num_elem_nodes. repeat case_decide; congruence.
  - intros call e. by apply (refine_Raise evaluate mesh basis nn).
  - intros call Hraise.
    destruct (refine_Raise evaluate mesh basis nn call _ Hnn Hraise)
      as [Hev | [H | [H | [H | [H | H]]]]]; [exact Hev | discriminate H ..].
Qed.

Lemma refinement_ignores_source_basis_witness :
  Forall (fun e => element_basis e = L1) (elements unit_cube) /\
  exists r, mesh_refine_along_xi3 Element_evaluate unit_cube L2 2 = Ok r.
Proof.
  split; [repeat constructor|].
  destruct (generate_xi_grid [3; 3; 3] 3) as [grid|e] eqn:Hg;
    [|vm_compute in Hg; discriminate Hg].
  destruct (refinement_ignores_source_basis Element_evaluate unit_cube L2 [3; 3; 3]
              grid 2 1 1 1 3 eq_refl Hg) as (_ & _ & H3 & _).
  apply H3. apply evaluate_returnsb_spec.
  vm_compute in Hg. injection Hg as <-. vm_compute. reflexivity.
Defined.

(** C3 as stated fails: the unit cube is made of one trilinear (L1)
    element, and each of the four refinement functions accepts the target
    bases L2 and L3 for it. *)
Lemma mixed_basis_refinement_succeeds :
  generated unit_cube = true /\
  Forall (fun e => element_basis e = L1) (elements unit_cube) /\
  (exists r, mesh_refine_along_xi1 Element_evaluate unit_cube L3 2 = Ok r) /\
  (exists r, mesh_refine_along_xi2 Element_evaluate unit_cube L3 2 = Ok r) /\
  (exists r, mesh_refine_along_xi3 Element_evaluate unit_cube L3 2 = Ok r) /\
  (exists r, full_refinement Element_evaluate unit_cube L2 [2; 2; 2] = Ok r) /\
  full_refinement Element_evaluate unit_cube L3 [1; 1; 1] <> Raise UnsupportedBasis.
Proof.
  split; [reflexivity|]. split; [repeat constructor|].
  split; [eexists; vm_compute; reflexivity|].
  split; [eexists; vm_compute; reflexivity|].
  split; [eexists; vm_compute; reflexivity|].
  split; [eexists; vm_compute; reflexivity|].
  vm_compute. discriminate.
Qed.

(** C4, as the code has it: the mesh returned by a refinement call has one
    node per distinct evaluated point, in assigned-index order; the node of
    the point with assigned index [i] has the id [i + 1], belongs to the
    group "_default" and holds the point's coordinates; there is one element
    per (source element, partition) pair, in loop order, element [j] having
    the id [j + 1], the target basis descriptor and, as node ids, the indices
    of its evaluated points each increased by one; the mesh is generated. *)
Theorem refined_mesh_is_assembled
    (evaluate : Mesh -> Element -> array2 float -> result (array2 float))
    (mesh : Mesh) (basis : basis_t) (call : refinement_call)
    (rm : Mesh) (xn : array2 float) (xe : array2 Z) :
  refine evaluate mesh basis call = Ok (rm, xn, xe) ->
  exists (nn : list Z) (grid : array2 float)
         (parts : list (array2 float)) (pts : list (list point)),
    get_num_elem_nodes basis = Ok nn /\
    generate_xi_grid nn 3 = Ok grid /\
    call_partitions grid call = Ok parts /\
    evaluations evaluate mesh parts = Ok pts /\
    distinct_keys xn /\ same_points xn (concat pts) /\
    length (nodes rm) = length xn /\
    (forall (i : nat) (value : point), xn !! i = Some value ->
       exists node, nodes rm !! i = Some node /\
         node_id node = Z.of_nat i + 1 /\
         node_group node = "_default" /\
         Node_values rm node = array1 value) /\
    length (elements rm) = (length (elements mesh) * length parts)%nat /\
    (forall (j : nat) (ps : list point), pts !! j = Some ps ->
       exists row, xe !! j = Some row /\ Forall2 (resolved xn) ps row /\
         elements rm !! j =
           Some {| element_id := Z.of_nat j + 1; element_basis := basis;
                   element_node_ids := (fun i => i + 1) <$> row |}) /\
    generated rm = true /\
    core_P rm = concat xn.
Proof.
  intros H.
  destruct (refine_Ok _ _ _ _ _ H) as (nn & grid & parts & Hnn & Hg & Hparts & Hloop & _).
  destruct (refine_loop_Ok _ _ _ _ _ _ _ Hloop)
    as (pts & Hev & Hxn & Hres & Hnf & _ & _ & Hmesh).
  apply (proj1 (create_morphic_mesh_spec basis xn xe)) in Hmesh.
  destruct Hmesh as [-> _].
  exists nn, grid, parts, pts.
  split; [exact Hnn|]. split; [exact Hg|]. split; [exact Hparts|].
  split; [exact Hev|].
  pose proof (Forall2_Forall2_concat _ _ _ Hres) as Hflat.
  split; [rewrite Hxn; apply first_seen_distinct|].
  split.
  { rewrite Hxn in Hflat |- *.
    eapply first_seen_same_points; [|exact Hflat]. by apply Forall_concat. }
  split; [apply length_nodes_from|].
  split; [intros i value Hi; by apply assembled_node|].
  split.
  { simpl. rewrite length_elements_from, <- (Forall2_length _ _ _ Hres).
    by apply evaluations_length in Hev. }
  split; [|split; reflexivity].
  intros j ps Hj. destruct (Forall2_lookup_l _ _ _ _ _ Hres Hj) as (row & Hrow & Hr).
  exists row. split; [exact Hrow|]. split; [exact Hr|]. by apply assembled_element.
Qed.

Lemma refined_mesh_is_assembled_witness :
  exists rm xn xe node,
    full_refinement Element_evaluate unit_cube L1 [2; 2; 2] = Ok (rm, xn, xe) /\
    length (nodes rm) = 27%nat /\ length (elements rm) = 8%nat /\
    nodes rm !! 26%nat = Some node /\ node_id node = 27.
Proof.
  destruct (full_refinement Element_evaluate unit_cube L1 [2; 2; 2])
    as [[[rm xn] xe]|e] eqn:Hrun; [|vm_compute in Hrun; discriminate Hrun].
  destruct (refined_mesh_is_assembled Element_evaluate unit_cube L1 (Full [2; 2; 2])
              rm xn xe Hrun)
    as (nn & grid & parts & pts & _ & _ & _ & _ & _ & _ & Hn & Hnode & _).
  vm_compute in Hrun. injection Hrun as <- <- <-.
  eexists _, _, _, _. split; [reflexivity|].
  split; [reflexivity|]. split; [reflexivity|]. split; reflexivity.
Defined.

(** C4 as stated fails: the node of the point with assigned index 0 has the
    id 1, and the first refined element lists the node ids 1 .. 8 where the
    connectivity has the indices 0 .. 7. *)
Lemma refined_node_ids_start_at_one :
  exists rm xn xe node e,
    full_refinement Element_evaluate unit_cube L1 [1; 1; 1] = Ok (rm, xn, xe) /\
    nodes rm !! 0%nat = Some node /\ node_id node = 1 /\ node_id node <> 0 /\
    xe !! 0%nat = Some [0; 1; 2; 3; 4; 5; 6; 7] /\
    elements rm !! 0%nat = Some e /\
    element_node_ids e = [1; 2; 3; 4; 5; 6; 7; 8].
Proof.
  eexists _, _, _, _, _. split; [vm_compute; reflexivity|].
  split; [reflexivity|]. split; [reflexivity|]. split; [discriminate|].
  split; [reflexivity|]. split; reflexivity.
Qed.




(** C7: for every node, a write to a sub-slice of the node's values changes
    only the store entries that the sub-slice covers, all of them inside the
    node's region; every other store entry keeps its value, the mesh is
    otherwise unchanged, and the written values are read back at once from
    the store at the corresponding offsets and through the node's view. A
    write that raises leaves the mesh as it was. *)
Theorem slice_write_is_local
    (mesh : Mesh) (node : Node) (index : list selector) (value : rhs) (mesh' : Mesh) :
  (node_offset node + size_of (node_shape node) <= length (core_P mesh))%nat ->
  (forall e, setitem_values mesh node index value = (mesh', Raise e) -> mesh' = mesh) /\
  (setitem_values mesh node index value = (mesh', Ok ()) ->
   exists (ps : list nat) (vs : list float),
     positions (node_shape node) index = Ok ps /\
     rhs_values (length ps) value = Ok vs /\
     NoDup ps /\
     Forall (fun p => (p < size_of (node_shape node))%nat) ps /\
     length (core_P mesh') = length (core_P mesh) /\
     nodes mesh' = nodes mesh /\ elements mesh' = elements mesh /\
     generated mesh' = generated mesh /\
     (forall j : nat, j ∉ (fun p => (node_offset node + p)%nat) <$> ps ->
        core_P mesh' !! j = core_P mesh !! j) /\
     (forall (k p : nat) (v : float), ps !! k = Some p -> vs !! k = Some v ->
        core_P mesh' !! (node_offset node + p)%nat = Some v) /\
     getitem_values mesh' node index = Ok vs).
Proof.
  intros Hregion. unfold setitem_values. split.
  - intros e H. destruct (positions (node_shape node) index) as [ps|e'];
      [|by injection H as <-].
    destruct (rhs_values (length ps) value) as [vs|e'']; [discriminate | by injection H as <-].
  - intros H. destruct (positions (node_shape node) index) as [ps|e'] eqn:Hps;
      [|discriminate].
    destruct (rhs_values (length ps) value) as [vs|e''] eqn:Hvs; [|discriminate].
    injection H as <-. exists ps, vs.
    destruct (positions_Ok _ _ _ Hps) as [Hnd Hlt].
    pose proof (rhs_values_Ok _ _ _ Hvs) as Hlen.
    assert (Hvisible : forall (k p : nat) (v : float),
              ps !! k = Some p -> vs !! k = Some v ->
              write_positions (core_P mesh) (node_offset node) ps vs
                !! (node_offset node + p)%nat = Some v).
    { intros k p v Hp Hv. eapply write_positions_lookup; eauto.
      rewrite Forall_forall in Hlt.
      specialize (Hlt p (list_elem_of_lookup_2 _ _ _ Hp)). lia. }
    split; [reflexivity|]. split; [exact Hvs|]. split; [exact Hnd|].
    split; [exact Hlt|]. split; [apply length_write_positions|].
    split; [reflexivity|]. split; [reflexivity|]. split; [reflexivity|].
    split; [intros j Hj; by apply write_positions_other|].
    split; [exact Hvisible|].
    unfold getitem_values. rewrite Hps. simpl.
    apply mapR_lookups; [exact Hlen|].
    intros k p v Hp Hv. apply getitem_Ok. by apply (Hvisible k).
Qed.

Lemma slice_write_is_local_witness :
  exists mesh',
    setitem_values two_nodes.1.1 two_nodes.2 [At 1; Span (Some 1) None]
      (Values [fz 11; fz 22]) = (mesh', Ok ()) /\
    core_P mesh' !! 10%nat = Some (fz 11) /\ core_P mesh' !! 11%nat = Some (fz 22) /\
    (forall j : nat, j ∉ [10%nat; 11%nat] -> core_P mesh' !! j = core_P two_nodes.1.1 !! j).
Proof.
  destruct (setitem_values two_nodes.1.1 two_nodes.2 [At 1; Span (Some 1) None]
              (Values [fz 11; fz 22])) as [mesh' [[]|e]] eqn:Hset;
    [|vm_compute in Hset; discriminate Hset].
  exists mesh'. split; [reflexivity|].
  destruct (slice_write_is_local two_nodes.1.1 two_nodes.2 [At 1; Span (Some 1) None]
              (Values [fz 11; fz 22]) mesh' ltac:(vm_compute; lia)) as [_ Hok].
  destruct (Hok Hset) as (ps & vs & Hps & Hvs & _ & _ & _ & _ & _ & _ & Hother & Hvis & _).
  vm_compute in Hps. injection Hps as <-.
  vm_compute in Hvs. injection Hvs as <-.
  split; [exact (Hvis 0%nat 4%nat _ eq_refl eq_refl)|].
  split; [exact (Hvis 1%nat 5%nat _ eq_refl eq_refl)|].
  exact Hother.
Defined.




